(** * Homeland-sees: recorder, delivery queue and event loop

    A shallow embedding of [recorder.py], [bot_handler.py] and the loop of
    [main.py], with the properties of the orchestration layer stated over it.

    Conventions used throughout.
    - Everything the program learns from outside (the answer of [poll()], the
      result of a send call, a directory listing, the wall clock, the content
      of a file) is an explicit input of the function that asks for it.
    - Everything the program does to the outside (signals, launched commands,
      files written, messages sent, queue puts) is appended to an event log.
    - Clock readings ([time.time()]) and the configured durations are exact
      integers counted in microseconds; naive local datetimes are integers
      counted in microseconds on the local calendar axis.
    - A loop that the source does not bound is driven by a finite script of
      the environment's answers; running out of script is reported as such
      and never confused with the loop ending. *)

From Stdlib Require Import ZArith String Ascii List Lia Bool.
From Stdlib Require Import OrderedTypeEx.
From stdpp Require Import base option list gmap strings sorting.

Local Open Scope Z_scope.

(* ===================================================================== *)
(** * Python helpers on strings *)
(* ===================================================================== *)

(** [s.startswith(p)] *)
Fixpoint startswith (p s : string) : bool :=
  match p, s with
  | EmptyString, _ => true
  | String a p', String b s' => if Ascii.eqb a b then startswith p' s' else false
  | String _ _, EmptyString => false
  end.

(** [s[n:]] *)
Fixpoint drop_prefix (n : nat) (s : string) : string :=
  match n, s with
  | O, _ => s
  | S n', String _ s' => drop_prefix n' s'
  | S _, EmptyString => EmptyString
  end.

(** [needle in hay] for two strings. *)
Fixpoint contains (needle hay : string) : bool :=
  startswith needle hay ||
  match hay with
  | EmptyString => false
  | String _ hay' => contains needle hay'
  end.

(** Truth value of a Python string: only the empty string is falsy. *)
Definition str_truthy (s : string) : bool :=
  match s with EmptyString => false | String _ _ => true end.

(** Truth value of [str | None]. *)
Definition opt_truthy (o : option string) : bool :=
  match o with None => false | Some s => str_truthy s end.

(* ===================================================================== *)
(** * recorder.py *)
(* ===================================================================== *)

Module Recorder.

(** Number of attempts to start recording. *)
Definition START_ATTEMPTS : nat := 3.

(** The number written in [for _ in range(3)] of the hard-kill loop. *)
Definition HARD_KILL_ROUNDS : nat := 3.

(** The number written in [for _ in range(4)] of the escalation loop. *)
Definition TERMINATE_ROUNDS : nat := 4.

(** [self.recording], [self._attempts], [self._process] (the pid stands for
    the [Popen] handle) and [self._process_out_capture_enabled]. *)
Record recorder := mkRecorder {
  recording : bool;
  attempts : nat;
  process : option nat;
  capture_enabled : bool
}.

(** [Recorder.__init__] *)
Definition init : recorder :=
  {| recording := false; attempts := 0; process := None;
     capture_enabled := false |}.

Definition set_attempts (n : nat) (r : recorder) : recorder :=
  {| recording := recording r; attempts := n; process := process r;
     capture_enabled := capture_enabled r |}.

Definition set_capture (b : bool) (r : recorder) : recorder :=
  {| recording := recording r; attempts := attempts r; process := process r;
     capture_enabled := b |}.

(** What the recorder does to the outside. *)
Inductive event :=
| EvLaunch (pid : nat)        (* [subprocess.Popen(ffmpeg_command)] returned *)
| EvLaunchFailed              (* [subprocess.Popen(ffmpeg_command)] raised *)
| EvTerminate                 (* [self._process.terminate()] *)
| EvKill                      (* [self._process.kill()] *)
| EvHardKill                  (* [subprocess.Popen(ffmpeg_kill_command)] *)
| EvSleep.                    (* [time.sleep(...)] *)

Definition is_hard_kill (e : event) : bool :=
  match e with EvHardKill => true | _ => false end.

Definition is_launch (e : event) : bool :=
  match e with EvLaunch _ | EvLaunchFailed => true | _ => false end.

(** How often the external hard-kill command was invoked. *)
Definition hard_kills (log : list event) : nat :=
  length (filter (λ e, is_hard_kill e = true) log).

(** How often the capture command was launched. *)
Definition launches (log : list event) : nat :=
  length (filter (λ e, is_launch e = true) log).

(** ** The environment of one [stop()] call *)

Inductive call_result := Returns | Raises.

(** [self._process.wait(timeout=STOP_RECORDING_TIMEOUT)] *)
Inductive wait_result := Exited | TimeoutExpired | WaitRaises.

(** One round of the hard-kill loop: [Popen] may raise, [wait] may time out. *)
Inductive killer_result := KillerDone | KillerPopenRaises | KillerWaitTimeout.

Record stop_env := mkStopEnv {
  (** [self._process.poll() is None] at the head of the graceful block *)
  alive_at_stop : bool;
  (** the first [terminate()] *)
  first_terminate : call_result;
  (** the [wait] after it *)
  graceful_wait : wait_result;
  (** [poll() is None] in round [i] of the escalation loop *)
  alive_in_round : nat → bool;
  (** [terminate()] in round [i] of the escalation loop *)
  terminate_in_round : nat → call_result;
  (** [poll() is None] after the one-second pause *)
  alive_after_rounds : bool;
  (** [kill()] *)
  kill_call : call_result;
  (** round [i] of the hard-kill loop *)
  killer : nat → killer_result;
  (** the closing [while self._process.poll() is None]: [Some n] when the
      process reports exited at poll number [n] (counting from 0), [None]
      when it never does *)
  exit_poll : option nat
}.

(** The escalation loop:
    [for _ in range(4): if poll() is not None: break; terminate(); sleep(0.1)]
    inside [try: ... except: pass]. *)
Fixpoint terminate_rounds (env : stop_env) (i n : nat) : list event :=
  match n with
  | O => []
  | S n' =>
      if alive_in_round env i then
        match terminate_in_round env i with
        | Returns => EvTerminate :: EvSleep :: terminate_rounds env (S i) n'
        | Raises => [EvTerminate]
        end
      else []
  end.

(** The block guarded by [if self._process.poll() is None:]. The boolean is
    [false] when an exception leaves the block ([kill()] raising inside the
    [except subprocess.TimeoutExpired] handler is not caught by the sibling
    [except Exception]). *)
Definition graceful (env : stop_env) : list event * bool :=
  if alive_at_stop env then
    match first_terminate env with
    | Raises => ([EvTerminate], true)
    | Returns =>
        match graceful_wait env with
        | Exited => ([EvTerminate], true)
        | WaitRaises => ([EvTerminate], true)
        | TimeoutExpired =>
            let rounds := terminate_rounds env 0 TERMINATE_ROUNDS in
            if alive_after_rounds env then
              match kill_call env with
              | Returns => (EvTerminate :: rounds ++ [EvSleep; EvKill], true)
              | Raises => (EvTerminate :: rounds ++ [EvSleep; EvKill], false)
              end
            else (EvTerminate :: rounds ++ [EvSleep], true)
        end
    end
  else ([], true).

(** The hard-kill loop:
    [for _ in range(3): Popen(kill_command); wait(timeout); sleep(0.1)].
    The boolean is [false] when a round raises. *)
Fixpoint hard_kill_rounds (env : stop_env) (i n : nat) : list event * bool :=
  match n with
  | O => ([], true)
  | S n' =>
      match killer env i with
      | KillerDone =>
          let '(evs, ok) := hard_kill_rounds env (S i) n' in
          (EvHardKill :: EvSleep :: evs, ok)
      | KillerPopenRaises => ([EvHardKill], false)
      | KillerWaitTimeout => ([EvHardKill], false)
      end
  end.

Inductive stop_status :=
| StopReturned     (* the call returned *)
| StopHangs.       (* the closing loop never sees the process exit *)

Record stop_outcome := mkStopOutcome {
  stop_status_of : stop_status;
  stop_recorder : recorder;
  stop_events : list event
}.

(** [Recorder.stop(from_self)] *)
Definition stop (env : stop_env) (from_self : bool) (r : recorder)
  : stop_outcome :=
  match process r with
  | None => mkStopOutcome StopReturned r []
  | Some _ =>
      let r1 := if from_self then r else set_attempts 0 r in
      let r2 := set_capture false r1 in
      let '(evs1, ok1) := graceful env in
      if ok1 then
        let '(evs2, ok2) := hard_kill_rounds env 0 HARD_KILL_ROUNDS in
        if ok2 then
          match exit_poll env with
          | Some n =>
              mkStopOutcome StopReturned
                {| recording := false; attempts := attempts r2;
                   process := None; capture_enabled := false |}
                (evs1 ++ evs2 ++ repeat EvSleep n)
          | None => mkStopOutcome StopHangs r2 (evs1 ++ evs2)
          end
        else mkStopOutcome StopReturned r2 (evs1 ++ evs2)
      else mkStopOutcome StopReturned r2 evs1
  end.

(** ** The environment of one launch inside [start()] *)

(** The watchdog loop reads the control channel without blocking until the
    start timeout has passed; [reads] lists what every read inside the window
    returned ([None] for [Empty]). *)
Fixpoint watchdog (reads : list (option string)) : bool :=
  match reads with
  | [] => false
  | None :: rest => watchdog rest
  | Some line :: rest =>
      if negb (str_truthy line) || negb (contains "frame=" line)
      then watchdog rest
      else true
  end.

Inductive launch_outcome :=
| PrepareRaises
    (* an exception before the attempt counter is touched: creating the
       output directory, copying the command template *)
| PopenRaises
    (* [subprocess.Popen] raises *)
| ExitedAtOnce (pid : nat)
    (* [self._process.poll()] is not [None] right after the launch *)
| Running (pid : nat) (reads : list (option string)) (env : stop_env).
    (* the process is alive; [reads] is what the watchdog sees, [env] is how
       the process answers [stop(from_self=True)] after a timeout *)

Inductive start_result :=
| Started (output_dir : string)
| Failed                        (* [return None] *)
| StartHangs                    (* the inner [stop] never returns *)
| ScriptExhausted.              (* a further launch is due, none is scripted *)

Record start_outcome := mkStartOutcome {
  start_result_of : start_result;
  start_recorder : recorder;
  start_events : list event
}.

Definition prepend (evs : list event) (o : start_outcome) : start_outcome :=
  mkStartOutcome (start_result_of o) (start_recorder o) (evs ++ start_events o).

(** [Recorder.start(event_time)]; [output_dir] is
    [os.path.join(config["output_directory"], event_time.strftime(...))]. *)
Fixpoint start (output_dir : string) (script : list launch_outcome)
    (r : recorder) : start_outcome :=
  match script with
  | [] => mkStartOutcome ScriptExhausted r []
  | PrepareRaises :: _ => mkStartOutcome Failed r []
  | PopenRaises :: _ =>
      mkStartOutcome Failed (set_attempts (S (attempts r)) r) [EvLaunchFailed]
  | ExitedAtOnce pid :: _ =>
      mkStartOutcome Failed
        {| recording := recording r; attempts := S (attempts r);
           process := Some pid; capture_enabled := true |}
        [EvLaunch pid]
  | Running pid reads env :: rest =>
      let r1 := {| recording := recording r; attempts := S (attempts r);
                   process := Some pid; capture_enabled := true |} in
      if watchdog reads then
        mkStartOutcome (Started output_dir)
          {| recording := true; attempts := 0;
             process := Some pid; capture_enabled := false |}
          [EvLaunch pid]
      else
        let s := stop env true r1 in
        match stop_status_of s with
        | StopHangs =>
            mkStartOutcome StartHangs (stop_recorder s)
              (EvLaunch pid :: stop_events s)
        | StopReturned =>
            let r2 := stop_recorder s in
            if (START_ATTEMPTS <=? attempts r2)%nat then
              mkStartOutcome Failed (set_attempts 0 r2)
                (EvLaunch pid :: stop_events s)
            else
              prepend (EvLaunch pid :: stop_events s ++ [EvSleep])
                      (start output_dir rest r2)
        end
  end.

(** [stop] returns unless everything before the closing loop went through
    and the process never reports exited. *)
Definition stop_returns (env : stop_env) : bool :=
  negb ((graceful env).2 && (hard_kill_rounds env 0 HARD_KILL_ROUNDS).2
        && bool_decide (exit_poll env = None)).

(** A launch on which the watchdog gives up and whose inner [stop] returns. *)
Definition times_out (o : launch_outcome) : bool :=
  match o with
  | Running _ reads env => negb (watchdog reads) && stop_returns env
  | _ => false
  end.

(** The claim's words for a [start] whose launches all time out: every
    launch is followed by [stop(from_self=True)] on the process just
    launched, and every launch but the last by the pause of one second
    before the retry. The result is the recorder after the last [stop] and
    what was done, oldest first. *)
Fixpoint timeout_rounds (timeouts : list launch_outcome) (r : recorder)
  : recorder * list event :=
  match timeouts with
  | Running pid _ env :: rest =>
      let s := stop env true
                 {| recording := recording r; attempts := S (attempts r);
                    process := Some pid; capture_enabled := true |} in
      match rest with
      | [] => (stop_recorder s, EvLaunch pid :: stop_events s)
      | _ :: _ =>
          let '(r', evs) := timeout_rounds rest (stop_recorder s) in
          (r', EvLaunch pid :: stop_events s ++ EvSleep :: evs)
      end
  | _ => (r, [])
  end.

Definition is_terminate (e : event) : bool :=
  match e with EvTerminate => true | _ => false end.

Definition is_kill (e : event) : bool :=
  match e with EvKill => true | _ => false end.

(** How often [terminate()] was called. *)
Definition terminates (log : list event) : nat :=
  length (filter (λ e, is_terminate e = true) log).

(** How often [kill()] was called. *)
Definition kills (log : list event) : nat :=
  length (filter (λ e, is_kill e = true) log).

(** The way to [self._process.kill()]: the process is alive, the first
    [terminate()] returns, the wait times out, and the process is still
    alive after the rounds. *)
Definition kill_is_due (env : stop_env) : bool :=
  alive_at_stop env
  && match first_terminate env with Returns => true | Raises => false end
  && match graceful_wait env with TimeoutExpired => true | _ => false end
  && alive_after_rounds env.

(** The placeholder of the command template. *)
Definition PLACEHOLDER : string := "{output_dir}".

(** [s.replace(old, new)] for a non-empty [old]: the occurrences are found
    from left to right and do not overlap; [skip] counts the characters of
    the occurrence just replaced that are still to be passed over. *)
Fixpoint replace_from (old new : string) (skip : nat) (s : string) : string :=
  match s with
  | EmptyString => EmptyString
  | String c s' =>
      match skip with
      | S k => replace_from old new k s'
      | O =>
          if startswith old s
          then new +:+ replace_from old new (String.length old - 1)%nat s'
          else String c (replace_from old new 0 s')
      end
  end.

Definition replace (old new s : string) : string := replace_from old new 0 s.

(** Lines 82 to 85: the copy of [config["ffmpeg_command"]] in which every
    token that contains the placeholder has it replaced by the directory. *)
Definition prepare_command (ffmpeg_command : list string) (output_dir : string)
  : list string :=
  map (λ arg, if contains PLACEHOLDER arg
              then replace PLACEHOLDER output_dir arg else arg)
      ffmpeg_command.

End Recorder.

(* ===================================================================== *)
(** * bot_handler.py: the delivery queue *)
(* ===================================================================== *)

Module BotHandler.

(** Maximum number of tries to send file to each user (in case of other
    than network error). *)
Definition SEND_FILE_TRIES_MAX : nat := 3.

(** Length of video unique id. *)
Definition VIDEO_ID_LENGTH : nat := 12.

(** [ascii_uppercase + ascii_lowercase + digits] *)
Definition alphabet : list ascii :=
  list_ascii_of_string
    "ABCDEFGHIJKLMNOPQRSTUVWXYZabcdefghijklmnopqrstuvwxyz0123456789".

(** One entry of [video_messages.json]:
    [{"path": ..., "messages": [{"chat_id": ..., "message_id": ...}, ...]}]. *)
Record video_record := mkVideoRecord {
  path : string;
  messages : list (Z * Z)
}.

(** The part of the configuration the consumer reads. *)
Record config := mkConfig {
  users_whitelist_video : list Z;
  users_whitelist_text : list Z
}.

(** [random.choices(population, k=k)]: draw number [j] selects
    [population[pick j]], the raw draw being reduced to an index. *)
Definition choices (population : list ascii) (k : nat) (pick : nat → nat)
  : string :=
  string_of_list_ascii
    (map (λ j, nth (pick j mod length population)%nat population "000"%char)
         (seq 0 k)).

(** [video_id in messages] for [video_id : str | None]. *)
Definition id_in (video_id : option string)
    (msgs : gmap string video_record) : bool :=
  match video_id with
  | None => false
  | Some v => bool_decide (is_Some (msgs !! v))
  end.

(** [while not video_id or video_id in messages: video_id = "".join(choices(...))].
    [picks] holds the randomness of the successive [choices] calls; [None] is
    returned when the loop is still running after all of them. *)
Fixpoint generate_video_id (picks : list (nat → nat))
    (video_id : option string) (msgs : gmap string video_record)
  : option string :=
  if negb (opt_truthy video_id) || id_in video_id msgs then
    match picks with
    | [] => None
    | pick :: rest =>
        generate_video_id rest
          (Some (choices alphabet VIDEO_ID_LENGTH pick)) msgs
    end
  else video_id.

(** What one send call does. *)
Inductive send_result :=
| Sent (message_id : Z)   (* the call returned a message with this id *)
| NetworkError            (* raised; the class is exactly telegram.error.NetworkError *)
| OtherError.             (* raised anything else *)

(** One pass through [while self._sending_thread_running:]. *)
Inductive iteration :=
| FlagCleared                 (* the flag reads [False] *)
| Attempt (r : send_result).  (* the flag reads [True]; the send call does [r] *)

Inductive event :=
| EvWriteDb (d : gmap string video_record)
    (* [_write_video_messages(d)]: the whole database is dumped; an I/O error
       inside is logged by the routine and not seen by its caller *)
| EvSend (video : bool) (user_id : Z) (data : string) (r : send_result)
    (* [send_video] or [send_message] was called and did [r] *)
| EvWait (between_retries : bool).
    (* [_sending_thread_wait(DELAY_BETWEEN_RETRIES)] or
       [_sending_thread_wait(DELAY_BETWEEN_USERS)] *)

Definition is_send (e : event) : bool :=
  match e with EvSend _ _ _ _ => true | _ => false end.

(** Number of send calls in a log. *)
Definition send_attempts (log : list event) : nat :=
  length (filter (λ e, is_send e = true) log).



(** [video_msgs[video_id]["messages"].append({"chat_id": ..., "message_id": ...})];
    [None] when the lookup raises. *)
Definition append_message (video_id : option string) (user_id message_id : Z)
    (video_msgs : gmap string video_record)
  : option (gmap string video_record) :=
  match video_id with
  | None => None
  | Some v =>
      match video_msgs !! v with
      | None => None
      | Some rec =>
          Some (<[v := mkVideoRecord (path rec)
                         (messages rec ++ [(user_id, message_id)])]> video_msgs)
      end
  end.

(** The [except Exception as e:] clause: the new value of [tries_counter]. *)
Definition after_failure (tries_counter : nat) (network : bool) : nat :=
  if network then 1%nat else S tries_counter.

Inductive send_exit :=
| Delivered      (* [break] after a message id >= 0 *)
| Abandoned      (* [break] after [tries_counter >= SEND_FILE_TRIES_MAX] *)
| Interrupted    (* the flag read [False] *)
| OutOfScript.   (* still retrying when the script ends *)

Record send_outcome := mkSendOutcome {
  send_exit_of : send_exit;
  send_db : gmap string video_record;
  send_events : list event
}.

(** The [while] loop of [_send_text_or_video]. *)
Fixpoint send_loop (video : bool) (user_id : Z) (data_to_send : string)
    (video_id : option string) (script : list iteration)
    (tries_counter : nat) (video_msgs : gmap string video_record)
  : send_outcome :=
  match script with
  | [] => mkSendOutcome OutOfScript video_msgs []
  | FlagCleared :: _ => mkSendOutcome Interrupted video_msgs []
  | Attempt r :: rest =>
      let ev := EvSend video user_id data_to_send r in
      let failed (network : bool) :=
        let tries' := after_failure tries_counter network in
        if (SEND_FILE_TRIES_MAX <=? tries')%nat then
          mkSendOutcome Abandoned video_msgs [ev]
        else
          let o := send_loop video user_id data_to_send video_id rest
                     tries' video_msgs in
          mkSendOutcome (send_exit_of o) (send_db o)
            (ev :: EvWait true :: send_events o) in
      match r with
      | Sent message_id =>
          if 0 <=? message_id then
            if video then
              match append_message video_id user_id message_id video_msgs with
              | Some msgs' =>
                  mkSendOutcome Delivered msgs' [ev; EvWriteDb msgs']
              | None => mkSendOutcome Delivered video_msgs [ev]
              end
            else mkSendOutcome Delivered video_msgs [ev]
          else failed false   (* [raise Exception("Wrong message ID")] *)
      | NetworkError => failed true
      | OtherError => failed false
      end
  end.

(** [_send_text_or_video]: the loop, then the wait before the next user. *)
Definition send_text_or_video (video : bool) (user_id : Z)
    (data_to_send : string) (video_id : option string)
    (script : list iteration) (video_msgs : gmap string video_record)
  : send_outcome :=
  let o := send_loop video user_id data_to_send video_id script 0 video_msgs in
  match send_exit_of o with
  | OutOfScript => o
  | _ => mkSendOutcome (send_exit_of o) (send_db o)
           (send_events o ++ [EvWait false])
  end.

(** The environment of one pass through [while self._sending_thread_running:]
    of the consumer. *)
Record job_env := mkJobEnv {
  (** the flag as read by the [while] *)
  flag_at_loop_head : bool;
  (** what [_load_video_messages()] returns ([∅] when the file cannot be read) *)
  loaded : gmap string video_record;
  (** the randomness of the successive [choices] calls *)
  id_picks : list (nat → nat);
  (** the flag as read by [if not self._sending_thread_running: break] before
      recipient number [i] *)
  flag_before_user : nat → bool;
  (** the send script of recipient number [i] *)
  user_script : nat → list iteration
}.

Record users_outcome := mkUsersOutcome {
  users_finished : bool;     (* [false]: a send loop ran out of script *)
  users_db : gmap string video_record;
  users_events : list event
}.

(** [for user_id in whitelist: if not running: break; _send_text_or_video(...)] *)
Fixpoint send_to_users (video : bool) (data_to_send : string)
    (video_id : option string) (env : job_env) (i : nat) (users : list Z)
    (msgs : gmap string video_record) : users_outcome :=
  match users with
  | [] => mkUsersOutcome true msgs []
  | user_id :: rest =>
      if flag_before_user env i then
        let o := send_text_or_video video user_id data_to_send video_id
                   (user_script env i) msgs in
        match send_exit_of o with
        | OutOfScript => mkUsersOutcome false (send_db o) (send_events o)
        | _ =>
            let u := send_to_users video data_to_send video_id env (S i)
                       rest (send_db o) in
            mkUsersOutcome (users_finished u) (users_db u)
              (send_events o ++ users_events u)
        end
      else mkUsersOutcome true msgs []
  end.

Inductive job_exit :=
| JobDone          (* fall through to the next pass of the consumer loop *)
| JobUnknown       (* the [else] branch: [logging.error(...); return] *)
| JobStuck.        (* out of script inside the job *)

Record job_outcome := mkJobOutcome {
  job_exit_of : job_exit;
  job_video_id : option string;
  job_events : list event
}.

(** The body of the consumer loop after a job string was dequeued. *)
Definition process_job (cfg : config) (env : job_env) (data_to_send : string)
  : job_outcome :=
  let msgs := loaded env in
  if startswith "video_" data_to_send then
    let data := drop_prefix 6 data_to_send in
    match generate_video_id (id_picks env) None msgs with
    | None => mkJobOutcome JobStuck None []
    | Some video_id =>
        let msgs1 := <[video_id := mkVideoRecord data []]> msgs in
        let u := send_to_users true data (Some video_id) env 0
                   (users_whitelist_video cfg) msgs1 in
        mkJobOutcome (if users_finished u then JobDone else JobStuck)
          (Some video_id) (EvWriteDb msgs1 :: users_events u)
    end
  else if startswith "text_" data_to_send then
    let data := drop_prefix 5 data_to_send in
    let u := send_to_users false data None env 0
               (users_whitelist_text cfg) msgs in
    mkJobOutcome (if users_finished u then JobDone else JobStuck)
      None (users_events u)
  else mkJobOutcome JobUnknown None [].

Inductive loop_exit :=
| ExitFlag          (* the [while] condition read [False] *)
| ExitSentinel      (* [None] was dequeued: [break] *)
| ExitUnknownJob    (* [return] from the [else] branch *)
| BlockedOnGet      (* [queue.get(block=True)] on an empty queue *)
| ExitStuck.        (* out of script inside a job *)

Record loop_outcome := mkLoopOutcome {
  loop_exit_of : loop_exit;
  (** the items still in the queue when the loop function is left *)
  left_in_queue : list (option string);
  (** the job strings whose processing was begun, oldest first *)
  jobs_begun : list string;
  loop_events : list event
}.

(** [_sending_thread_loop]; [queue] lists the items in the order they were
    put ([None] is the sentinel), [envs n] is the environment of pass [n]. *)
Fixpoint sending_thread_loop (cfg : config) (envs : nat → job_env) (n : nat)
    (queue : list (option string)) : loop_outcome :=
  if flag_at_loop_head (envs n) then
    match queue with
    | [] => mkLoopOutcome BlockedOnGet [] [] []
    | None :: rest => mkLoopOutcome ExitSentinel rest [] []
    | Some data_to_send :: rest =>
        let j := process_job cfg (envs n) data_to_send in
        match job_exit_of j with
        | JobUnknown => mkLoopOutcome ExitUnknownJob rest [] []
        | JobStuck =>
            mkLoopOutcome ExitStuck rest [data_to_send] (job_events j)
        | JobDone =>
            let o := sending_thread_loop cfg envs (S n) rest in
            mkLoopOutcome (loop_exit_of o) (left_in_queue o)
              (data_to_send :: jobs_begun o) (job_events j ++ loop_events o)
        end
    end
  else mkLoopOutcome ExitFlag queue [] [].

(** The log discipline of a video job, read off the source: every video send
    that returned a message id >= 0 is directly followed by a dump of the
    database in which the record of [video_id] carries the pair just appended
    to the pairs collected so far, every other key being as in [base]; no
    other dump occurs. [sent] is the list of pairs collected so far. *)
Fixpoint appends_persisted (video_id data : string)
    (base : gmap string video_record) (sent : list (Z * Z))
    (log : list event) : Prop :=
  match log with
  | [] => True
  | EvSend _ user_id _ (Sent message_id) :: rest =>
      if 0 <=? message_id then
        match rest with
        | EvWriteDb d :: rest' =>
            d = <[video_id :=
                    mkVideoRecord data (sent ++ [(user_id, message_id)])]> base
            ∧ appends_persisted video_id data base
                (sent ++ [(user_id, message_id)]) rest'
        | _ => False
        end
      else appends_persisted video_id data base sent rest
  | EvSend _ _ _ _ :: rest => appends_persisted video_id data base sent rest
  | EvWait _ :: rest => appends_persisted video_id data base sent rest
  | EvWriteDb _ :: _ => False
  end.

(** ** Counting deliveries *)

Definition is_success (e : event) : bool :=
  match e with EvSend _ _ _ (Sent message_id) => 0 <=? message_id | _ => false end.

(** Number of send calls in a log that returned a message id >= 0. *)
Definition successes (log : list event) : nat :=
  length (filter (λ e, is_success e = true) log).

(** The databases dumped in a log, oldest first. *)
Fixpoint dumps (log : list event) : list (gmap string video_record) :=
  match log with
  | [] => []
  | EvWriteDb d :: rest => d :: dumps rest
  | _ :: rest => dumps rest
  end.

(** The recipients of the send calls of a log, oldest first. *)
Fixpoint send_targets (log : list event) : list Z :=
  match log with
  | [] => []
  | EvSend _ user_id _ _ :: rest => user_id :: send_targets rest
  | _ :: rest => send_targets rest
  end.

(** ** Inline keyboards *)

(** A list of buttons as a row of the menu: [if header_buttons:] is false for
    [None] and for the empty list. *)
Definition menu_row {A} (row : option (list A)) : list (list A) :=
  match row with
  | Some (b :: bs) => [b :: bs]
  | _ => []
  end.

(** [build_menu(buttons, n_cols, header_buttons, footer_buttons)]. The [None]
    entries are dropped, the rest is cut into
    [buttons[i : i + n_cols] for i in range(0, len(buttons), n_cols)];
    [range] raises for a step of 0 (the result is [None] then) and is empty
    for a negative step. *)
Definition build_menu {A} (buttons : list (option A)) (n_cols : Z)
    (header_buttons footer_buttons : option (list A))
  : option (list (list A)) :=
  let buttons := omap id buttons in
  if n_cols =? 0 then None
  else
    let menu :=
      if n_cols <? 0 then []
      else
        let n := Z.to_nat n_cols in
        map (λ k, take n (drop (k * n) buttons))
            (seq 0 ((length buttons + n - 1) / n)) in
    Some (menu_row header_buttons ++ menu ++ menu_row footer_buttons).

(** ** Button presses *)

Inductive action := Ask | Keep | Delete.

(** The [callback_data] the bot attaches to a button: [f"ask_{video_id}"],
    [f"keep_{video_id}"], [f"delete_{video_id}"]. *)
Definition callback_data (a : action) (video_id : string) : string :=
  match a with
  | Ask => "ask_" +:+ video_id
  | Keep => "keep_" +:+ video_id
  | Delete => "delete_" +:+ video_id
  end.

(** Lines 561 to 569 and the branches at 581, 598 and 616: the action and
    the video id of a [query_data]; [None] for an unknown command. *)
Definition parse_callback (query_data : string) : option (action * string) :=
  if startswith "ask_" query_data then Some (Ask, drop_prefix 4 query_data)
  else if startswith "keep_" query_data
  then Some (Keep, drop_prefix 5 query_data)
  else if startswith "delete_" query_data
  then Some (Delete, drop_prefix 7 query_data)
  else None.

(** The texts of the configuration used by the handlers, the two [format]
    calls and [os.path.basename]. *)
Record texts := mkTexts {
  start_text : string;
  start_text_not_in_whitelist : Z → string;
  pause_text : string;
  rebooting_text : string;
  local_file_deleted_text : string;
  are_you_sure_text : string → string;
  delete_local_file_btn_text : string;
  no_btn_text : string;
  yes_btn_text : string;
  basename : string → string
}.

(** [self.pause_requested], [self.test_flag], [self._deleting_in_progress]. *)
Record handler_state := mkHandlerState {
  pause_requested : bool;
  test_flag : bool;
  deleting_in_progress : bool
}.

(** A button: its text and its [callback_data]. *)
Definition button : Type := string * string.

(** What the handlers do to the outside. *)
Inductive ui_event :=
| UiMessage (chat_id : Z) (text : string)
    (* [_send_message_safe(chat_id, text)] *)
| UiEditCaption (chat_id message_id : Z) (caption : string)
    (reply_markup : option (list (list button)))
    (* [edit_message_caption]; an exception inside is logged and passed over *)
| UiRemoveFile (filepath : string) (removed : bool)
    (* [os.remove(filepath)]; [removed] is [false] when it raises *)
| UiWriteDb (d : gmap string video_record)
    (* [_write_video_messages(d)] *)
| UiSleep
    (* [time.sleep(DELAY_BETWEEN_USERS)] *)
| UiWriteLock (chat_id : Z)
    (* the reboot lock file is written *)
| UiReboot.
    (* [subprocess.run(reboot_command)] *)

(** The pattern shared by [/start] and [/pause]: the sender first, then every
    other entry of the text whitelist after a pause. *)
Definition notify_all (cfg : config) (chat_id : Z) (text : string)
  : list ui_event :=
  UiMessage chat_id text
  :: flat_map (λ c, if decide (c ≠ chat_id)
                    then [UiSleep; UiMessage c text] else [])
       (users_whitelist_text cfg).

(** [_command_start] *)
Definition command_start (cfg : config) (tx : texts) (chat_id : Z)
    (st : handler_state) : handler_state * list ui_event :=
  if bool_decide (chat_id ∈ users_whitelist_text cfg) then
    (mkHandlerState false (test_flag st) (deleting_in_progress st),
     notify_all cfg chat_id (start_text tx))
  else (st, [UiMessage chat_id (start_text_not_in_whitelist tx chat_id)]).

(** [_command_pause] *)
Definition command_pause (cfg : config) (tx : texts) (chat_id : Z)
    (st : handler_state) : handler_state * list ui_event :=
  if bool_decide (chat_id ∈ users_whitelist_text cfg) then
    (mkHandlerState true (test_flag st) (deleting_in_progress st),
     notify_all cfg chat_id (pause_text tx))
  else (st, []).

(** [_command_test] *)
Definition command_test (cfg : config) (chat_id : Z) (st : handler_state)
  : handler_state * list ui_event :=
  if bool_decide (chat_id ∈ users_whitelist_text cfg) then
    (mkHandlerState (pause_requested st) true (deleting_in_progress st), [])
  else (st, []).

(** [_command_reboot] *)
Definition command_reboot (cfg : config) (tx : texts) (chat_id : Z)
    (st : handler_state) : handler_state * list ui_event :=
  if bool_decide (chat_id ∈ users_whitelist_text cfg) then
    (st, [UiWriteLock chat_id; UiMessage chat_id (rebooting_text tx);
          UiReboot])
  else (st, []).

(** [_send_deleted]; [reloaded] is what [_load_video_messages()] returns
    inside. *)
Definition send_deleted (tx : texts) (reloaded : gmap string video_record)
    (video_id : string) (chat_id message_id : Z) : list ui_event :=
  UiEditCaption chat_id message_id (local_file_deleted_text tx) None
  :: match reloaded !! video_id with
     | None => []
     | Some rec =>
         flat_map
           (λ '(chat_id_, message_id_),
              if decide (chat_id_ ≠ chat_id ∨ message_id_ ≠ message_id)
              then [UiSleep;
                    UiEditCaption chat_id_ message_id_
                      (local_file_deleted_text tx) None]
              else [])
           (messages rec)
         ++ [UiWriteDb (delete video_id reloaded)]
     end.

(** What a button press carries; a field is [None] when reading it raises or
    yields [None]. *)
Record update := mkUpdate {
  effective_chat : option Z;
  effective_message : option Z;
  query_data : option string
}.

(** What [_query_callback] learns from outside. *)
Record callback_env := mkCallbackEnv {
  (** [_load_video_messages()] at the head of the handler *)
  cb_loaded : gmap string video_record;
  (** [_load_video_messages()] inside [_send_deleted] *)
  cb_reloaded : gmap string video_record;
  (** whether the flag polled by [while self._deleting_in_progress:] is ever
      cleared by someone else *)
  lock_released : bool;
  (** [os.path.exists(filepath)] *)
  file_exists : bool;
  (** whether [os.remove(filepath)] returns *)
  remove_returns : bool
}.

Record callback_outcome := mkCallbackOutcome {
  cb_returned : bool;     (* [false]: the handler stays in the wait loop *)
  cb_state : handler_state;
  cb_events : list ui_event
}.

(** [_query_callback] *)
Definition query_callback (cfg : config) (tx : texts) (env : callback_env)
    (upd : update) (st : handler_state) : callback_outcome :=
  match effective_chat upd, effective_message upd, query_data upd with
  | Some chat_id, Some message_id, Some data =>
      if negb (str_truthy data) then mkCallbackOutcome true st []
      else if negb (bool_decide (chat_id ∈ users_whitelist_text cfg))
      then mkCallbackOutcome true st []
      else
        match parse_callback data with
        | None => mkCallbackOutcome true st []
        | Some (a, video_id) =>
            match cb_loaded env !! video_id with
            | None =>
                mkCallbackOutcome true st
                  (send_deleted tx (cb_reloaded env) video_id
                     chat_id message_id)
            | Some rec =>
                let filepath := path rec in
                match a with
                | Ask =>
                    match build_menu
                            [Some (no_btn_text tx, callback_data Keep video_id);
                             Some (yes_btn_text tx,
                                   callback_data Delete video_id)]
                            2 None None with
                    | Some menu =>
                        mkCallbackOutcome true st
                          [UiEditCaption chat_id message_id
                             (are_you_sure_text tx (basename tx filepath))
                             (Some menu)]
                    | None => mkCallbackOutcome true st []
                    end
                | Keep =>
                    match build_menu
                            [Some (delete_local_file_btn_text tx,
                                   callback_data Ask video_id)]
                            1 None None with
                    | Some menu =>
                        mkCallbackOutcome true st
                          [UiEditCaption chat_id message_id
                             (basename tx filepath) (Some menu)]
                    | None => mkCallbackOutcome true st []
                    end
                | Delete =>
                    if deleting_in_progress st && negb (lock_released env)
                    then mkCallbackOutcome false st []
                    else
                      mkCallbackOutcome true
                        (mkHandlerState (pause_requested st) (test_flag st)
                           false)
                        (if file_exists env then
                           if remove_returns env then
                             UiRemoveFile filepath true
                             :: send_deleted tx (cb_reloaded env) video_id
                                  chat_id message_id
                           else [UiRemoveFile filepath false]
                         else send_deleted tx (cb_reloaded env) video_id
                                chat_id message_id)
                end
            end
        end
  | _, _, _ => mkCallbackOutcome true st []
  end.

(** The messages a log sends to one chat. *)
Fixpoint messages_to (chat_id : Z) (log : list ui_event) : list string :=
  match log with
  | [] => []
  | UiMessage c text :: rest =>
      if decide (c = chat_id) then text :: messages_to chat_id rest
      else messages_to chat_id rest
  | _ :: rest => messages_to chat_id rest
  end.

(** The databases a log dumps, oldest first. *)
Fixpoint ui_dumps (log : list ui_event) : list (gmap string video_record) :=
  match log with
  | [] => []
  | UiWriteDb d :: rest => d :: ui_dumps rest
  | _ :: rest => ui_dumps rest
  end.

(** The files a log tries to remove, oldest first. *)
Fixpoint removals (log : list ui_event) : list string :=
  match log with
  | [] => []
  | UiRemoveFile filepath _ :: rest => filepath :: removals rest
  | _ :: rest => removals rest
  end.

(** The messages whose caption a log edits, oldest first. *)
Fixpoint edited (log : list ui_event) : list (Z * Z) :=
  match log with
  | [] => []
  | UiEditCaption c m _ _ :: rest => (c, m) :: edited rest
  | _ :: rest => edited rest
  end.

End BotHandler.

(* ===================================================================== *)
(** * main.py: the event loop *)
(* ===================================================================== *)

Module Main.

(** One second and one day, in microseconds. *)
Definition SECOND : Z := 1000000.
Definition DAY : Z := 86400 * SECOND.

(** How long to wait between recordings to prevent ffmpeg errors. *)
Definition SECONDS_BETWEEN_RECORDINGS : Z := 10 * SECOND.

(** Minimum size of video to send (in bytes). *)
Definition MINIMUM_FILE_SIZE : Z := 1000000.

(** Library functions whose results only pass through the loop. *)
Record platform := mkPlatform {
  (** [dt.strftime(fmt)] *)
  strftime : string → Z → string;
  (** [os.path.join(a, b)] *)
  path_join : string → string → string;
  (** [datetime.fromtimestamp(ts)] for an integer [ts]: the naive local
      datetime of a unix timestamp, [None] when the call raises (the
      timestamp is outside the years the platform converts) *)
  fromtimestamp : Z → option Z;
  (** [fmt.format(interrupts_num=n)] *)
  format_interrupts : string → Z → string
}.

(** The configuration keys the loop reads. *)
Record config := mkConfig {
  record_extra : Z;
  event_test_text : string;
  event_text : string;
  event_text_start_time : string;
  event_text_interrupts_num : string;
  error_starting_recording : string;
  error_stopping_recording : string;
  output_directory : string;
  output_subdir_format : string
}.

(** What reading [.interrupts] leaves in [last_interrupt_timestamp] and
    [interrupts_num]. *)
Inductive counter_read :=
| NoCounter
    (* no file, or the read failed before the timestamp was parsed *)
| TimestampOnly (timestamp : Z)
    (* the timestamp was parsed, [int(interrupts_s)] raised *)
| Stored (timestamp interrupts : Z).

(** An entry of [os.listdir(output_dir)]. *)
Record dirent := mkDirent {
  name : string;
  is_file : bool;       (* [os.path.isfile] *)
  size : Z              (* [os.path.getsize] *)
}.

(** What one pass of the loop reads from outside. *)
Record tick_input := mkTickInput {
  pause_requested : bool;      (* [bot_handler_.pause_requested] *)
  test_flag : bool;            (* [bot_handler_.test_flag] *)
  door_opened : bool;          (* [gpio_handler_.door_get()] *)
  resume_time : Z;             (* [datetime.today()] after resuming *)
  event_time : Z;              (* [datetime.today()] for [door_opened_datetime] *)
  today : Z;                   (* [datetime.today()] for [today_start] *)
  counter_file : counter_read;
  clock_interrupt : Z;         (* [time.time()] written to [.interrupts] *)
  clock_before_start : Z;      (* [time.time()] of the wait before [start] *)
  clock_timer : Z;             (* [time.time()] of the grace timer *)
  clock_stopped : Z;           (* [time.time()] after [recorder_.stop()] *)
  start_script : list Recorder.launch_outcome;
  stop_env : Recorder.stop_env;
  listing : list dirent        (* [os.listdir(output_dir)] *)
}.

Inductive event :=
| EvQueuePut (item : string)        (* [bot_handler_.queue.put(item)] *)
| EvLight (on : bool)               (* [gpio_handler_.light_set(on)] *)
| EvCounterWrite (timestamp interrupts : Z)
                                    (* [.interrupts] is rewritten *)
| EvSleep (duration : Z)            (* [time.sleep(duration)] *)
| EvStartCalled                     (* [recorder_.start(...)] is entered *)
| EvStopCalled                      (* [recorder_.stop()] is entered *)
| EvRecorder (e : Recorder.event).  (* what the recorder did inside *)

(** The local variables of [main], the recorder object and the event log. *)
Record state := mkState {
  recording : bool;
  recording_stopped_time : Z;
  door_closed_timer : Z;
  pause_requested_prev : bool;
  files_sent : list string;
  output_dir : option string;
  datetime_started : Z;
  recorder_ : Recorder.recorder;
  log : list event
}.


Definition emit (evs : list event) (st : state) : state :=
  {| recording := recording st;
     recording_stopped_time := recording_stopped_time st;
     door_closed_timer := door_closed_timer st;
     pause_requested_prev := pause_requested_prev st;
     files_sent := files_sent st; output_dir := output_dir st;
     datetime_started := datetime_started st; recorder_ := recorder_ st;
     log := log st ++ evs |}.

(** The strings put on the delivery queue, oldest first. *)
Fixpoint queue_puts (l : list event) : list string :=
  match l with
  | [] => []
  | EvQueuePut s :: rest => s :: queue_puts rest
  | _ :: rest => queue_puts rest
  end.

Definition newline : string := String (ascii_of_nat 10) EmptyString.

(** ** The interrupt counter *)

(** [datetime.combine(datetime.today(), datetime.min.time())] *)
Definition today_start (today : Z) : Z := today / DAY * DAY.

(** [today_start + timedelta(days=1) - timedelta(seconds=1)] *)
Definition today_end (today : Z) : Z := today_start today + DAY - SECOND.

(** Lines 175 to 185: what the guarded read leaves in
    [last_interrupt_timestamp] and [interrupts_num]. *)
Definition read_counter (read : counter_read) : Z * Z :=
  match read with
  | NoCounter => (0, 0)
  | TimestampOnly ts => (ts, 0)
  | Stored ts n => (ts, n)
  end.

(** Lines 175 to 198: the count written for a sensor event. The comparison
    of lines 190 to 193 stands outside the handler of the read, so the
    result is [None] when [datetime.fromtimestamp] raises. *)
Definition count_interrupt (P : platform) (read : counter_read) (today : Z)
  : option Z :=
  let '(last_interrupt_timestamp, interrupts_num) := read_counter read in
  match fromtimestamp P last_interrupt_timestamp with
  | None => None
  | Some last_interrupt =>
      let interrupts_num :=
        if (last_interrupt <? today_start today)
           || (today_end today <? last_interrupt)
        then 0 else interrupts_num in
      Some (interrupts_num + 1)
  end.

(** ** The passes of the loop body *)

(** Lines 150 to 153. *)
Definition pause_edge (i : tick_input) (st : state) : state :=
  if negb (Bool.eqb (pause_requested i) (pause_requested_prev st)) then
    {| recording := recording st;
       recording_stopped_time := recording_stopped_time st;
       door_closed_timer := door_closed_timer st;
       pause_requested_prev := pause_requested i;
       files_sent := files_sent st; output_dir := output_dir st;
       datetime_started :=
         if negb (pause_requested i) then resume_time i
         else datetime_started st;
       recorder_ := recorder_ st; log := log st |}
  else st.

(** Lines 169 to 210: the events of the notification; [None] when the
    exception of line 191 leaves the block before anything is written. *)
Definition announce (P : platform) (cfg : config) (i : tick_input)
    (st : state) : option (list event) :=
  if test_flag i then
    Some
      [EvQueuePut ("text_" +:+ strftime P (event_test_text cfg) (event_time i))]
  else
    match count_interrupt P (counter_file i) (today i) with
    | None => None
    | Some interrupts_num =>
        Some
          [EvCounterWrite (Z.quot (clock_interrupt i) SECOND) interrupts_num;
           EvQueuePut
             ("text_" +:+ strftime P (event_text cfg) (event_time i)
              +:+ newline +:+ newline
              +:+ strftime P (event_text_start_time cfg) (datetime_started st)
              +:+ newline
              +:+ format_interrupts P (event_text_interrupts_num cfg)
                    interrupts_num)]
    end.

(** Lines 213 to 236: the light, the reset of the timer and the start of
    the recorder, after the notification [notified]. The boolean is [false]
    when [recorder_.start] does not return. *)
Definition start_session (P : platform) (cfg : config) (i : tick_input)
    (st : state) (notified : list event) : bool * state :=
  let evs := notified ++ [EvLight true] in
  if negb (Recorder.recording (recorder_ st)) then
    let waited :=
      if clock_before_start i - recording_stopped_time st
         <? SECONDS_BETWEEN_RECORDINGS
      then [EvSleep (SECONDS_BETWEEN_RECORDINGS
                     - (clock_before_start i - recording_stopped_time st))]
      else [] in
    let o := Recorder.start
               (path_join P (output_directory cfg)
                  (strftime P (output_subdir_format cfg) (event_time i)))
               (start_script i) (recorder_ st) in
    let evs := evs ++ waited ++ [EvStartCalled]
               ++ map EvRecorder (Recorder.start_events o) in
    let mk (dir : option string) (more : list event) :=
      {| recording := true;
         recording_stopped_time := recording_stopped_time st;
         door_closed_timer := 0;
         pause_requested_prev := pause_requested_prev st;
         files_sent := []; output_dir := dir;
         datetime_started := datetime_started st;
         recorder_ := Recorder.start_recorder o;
         log := log st ++ evs ++ more |} in
    match Recorder.start_result_of o with
    | Recorder.Started dir => (true, mk (Some dir) [])
    | Recorder.Failed =>
        (true, mk None
                 [EvQueuePut ("text_" +:+ error_starting_recording cfg)])
    | Recorder.StartHangs | Recorder.ScriptExhausted =>
        (false,
         {| recording := recording st;
            recording_stopped_time := recording_stopped_time st;
            door_closed_timer := 0;
            pause_requested_prev := pause_requested_prev st;
            files_sent := []; output_dir := None;
            datetime_started := datetime_started st;
            recorder_ := Recorder.start_recorder o;
            log := log st ++ evs |})
    end
  else
    (true,
     {| recording := recording st;
        recording_stopped_time := recording_stopped_time st;
        door_closed_timer := 0;
        pause_requested_prev := pause_requested_prev st;
        files_sent := []; output_dir := None;
        datetime_started := datetime_started st;
        recorder_ := recorder_ st;
        log := log st ++ evs
               ++ [EvQueuePut ("text_" +:+ error_starting_recording cfg)] |}).

(** Lines 162 to 236. The boolean is [false] when the pass does not
    complete: [recorder_.start] does not return, or the exception of line
    191 leaves the loop, which handles only [KeyboardInterrupt] and
    [SystemExit], with nothing written and the light untouched. *)
Definition start_pass (P : platform) (cfg : config) (i : tick_input)
    (st : state) : bool * state :=
  if (test_flag i || (door_opened i && negb (pause_requested i)))
     && negb (recording st) then
    match announce P cfg i st with
    | None => (false, st)
    | Some notified => start_session P cfg i st notified
    end
  else (true, st).

(** Lines 239 to 265. The boolean is [false] when [recorder_.stop] does not
    return. *)
Definition stop_pass (cfg : config) (i : tick_input) (st : state)
  : bool * state :=
  if recording st && (negb (door_opened i) || pause_requested i) then
    if door_closed_timer st =? 0 then
      (true,
       {| recording := recording st;
          recording_stopped_time := recording_stopped_time st;
          door_closed_timer := clock_timer i;
          pause_requested_prev := pause_requested_prev st;
          files_sent := files_sent st; output_dir := output_dir st;
          datetime_started := datetime_started st;
          recorder_ := recorder_ st; log := log st |})
    else if record_extra cfg <? clock_timer i - door_closed_timer st then
      if Recorder.recording (recorder_ st) then
        let o := Recorder.stop (stop_env i) false (recorder_ st) in
        let returned :=
          match Recorder.stop_status_of o with
          | Recorder.StopReturned => true
          | Recorder.StopHangs => false
          end in
        (returned,
         {| recording := false;
            recording_stopped_time :=
              if returned && opt_truthy (output_dir st)
              then clock_stopped i else recording_stopped_time st;
            door_closed_timer := 0;
            pause_requested_prev := pause_requested_prev st;
            files_sent := files_sent st; output_dir := output_dir st;
            datetime_started := datetime_started st;
            recorder_ := Recorder.stop_recorder o;
            log := log st ++ [EvLight false; EvStopCalled]
                   ++ map EvRecorder (Recorder.stop_events o) |})
      else
        (true,
         {| recording := false;
            recording_stopped_time := recording_stopped_time st;
            door_closed_timer := 0;
            pause_requested_prev := pause_requested_prev st;
            files_sent := files_sent st; output_dir := output_dir st;
            datetime_started := datetime_started st;
            recorder_ := recorder_ st;
            log := log st
                   ++ [EvLight false;
                       EvQueuePut
                         ("text_" +:+ error_stopping_recording cfg)] |})
    else (true, st)
  else (true, st).

(** Lines 268 to 270. *)
Definition cancel_pass (i : tick_input) (st : state) : state :=
  if door_opened i && recording st && negb (door_closed_timer st =? 0) then
    {| recording := recording st;
       recording_stopped_time := recording_stopped_time st;
       door_closed_timer := 0;
       pause_requested_prev := pause_requested_prev st;
       files_sent := files_sent st; output_dir := output_dir st;
       datetime_started := datetime_started st;
       recorder_ := recorder_ st; log := log st |}
  else st.

(** The order of [list.sort()] on strings. *)
Definition str_le (a b : string) : Prop := String.leb a b = true.

#[global] Instance str_le_dec (a b : string) : Decision (str_le a b) :=
  decide (String.leb a b = true).

(** Line 274: the names of the regular files of the listing. *)
Definition file_names (ls : list dirent) : list string :=
  map name (filter (λ e, is_file e = true) ls).

(** Lines 274 to 276: the files of the listing not yet in [files_sent],
    sorted. *)
Definition unsent (ls : list dirent) (sent : list string) : list string :=
  merge_sort str_le (filter (λ f, f ∉ sent) (file_names ls)).

(** [os.path.getsize] of an entry of the listing. *)
Definition getsize (ls : list dirent) (file : string) : Z :=
  match find (λ e, bool_decide (name e = file)) ls with
  | Some e => size e
  | None => 0
  end.

(** Lines 273 to 292. *)
Definition send_files (P : platform) (i : tick_input) (st : state) : state :=
  match output_dir st with
  | None => st
  | Some dir =>
      if str_truthy dir then
        match unsent (listing i) (files_sent st) with
        | [] => st
        | file :: files =>
            if (1 <? length (file :: files))%nat || negb (recording st) then
              let file_abs := path_join P dir file in
              {| recording := recording st;
                 recording_stopped_time := recording_stopped_time st;
                 door_closed_timer := door_closed_timer st;
                 pause_requested_prev := pause_requested_prev st;
                 files_sent := files_sent st ++ [file];
                 output_dir :=
                   if (length files =? 0)%nat && negb (recording st)
                   then None else output_dir st;
                 datetime_started := datetime_started st;
                 recorder_ := recorder_ st;
                 log :=
                   if MINIMUM_FILE_SIZE <? getsize (listing i) file
                   then log st ++ [EvQueuePut ("video_" +:+ file_abs)]
                   else log st |}
            else st
        end
      else st
  end.

(** One pass through the [while True:] body. The boolean is [false] when
    the pass does not complete: a call into the recorder does not return, or
    an exception leaves the loop. *)
Definition tick (P : platform) (cfg : config) (i : tick_input) (st : state)
  : bool * state :=
  let st0 := pause_edge i st in
  let '(ok1, st1) := start_pass P cfg i st0 in
  if ok1 then
    let '(ok2, st2) := stop_pass cfg i st1 in
    if ok2 then (true, send_files P i (cancel_pass i st2))
    else (false, st2)
  else (false, st1).

(** Consecutive passes; the run ends early when a pass does not complete. *)
Fixpoint run (P : platform) (cfg : config) (inputs : list tick_input)
    (st : state) : bool * state :=
  match inputs with
  | [] => (true, st)
  | i :: rest =>
      let '(ok, st') := tick P cfg i st in
      if ok then run P cfg rest st' else (false, st')
  end.

(** Consecutive file passes over an unchanged listing. *)
Fixpoint drain (P : platform) (i : tick_input) (n : nat) (st : state)
  : state :=
  match n with
  | O => st
  | S n' => drain P i n' (send_files P i st)
  end.

(** What a log writes to the interrupt counter file, oldest first. *)
Fixpoint counter_writes (l : list event) : list (Z * Z) :=
  match l with
  | [] => []
  | EvCounterWrite timestamp interrupts :: rest =>
      (timestamp, interrupts) :: counter_writes rest
  | _ :: rest => counter_writes rest
  end.

(** The condition of line 162. *)
Definition session_starts (i : tick_input) (st : state) : bool :=
  (test_flag i || (door_opened i && negb (pause_requested i)))
  && negb (recording st).

End Main.

(* ===================================================================== *)
(** * Sample environments *)
(* ===================================================================== *)

Module Samples.

(** A capture process that exits on the first [terminate()]. *)
Definition obedient : Recorder.stop_env :=
  {| Recorder.alive_at_stop := true;
     Recorder.first_terminate := Recorder.Returns;
     Recorder.graceful_wait := Recorder.Exited;
     Recorder.alive_in_round := λ _, false;
     Recorder.terminate_in_round := λ _, Recorder.Returns;
     Recorder.alive_after_rounds := false;
     Recorder.kill_call := Recorder.Returns;
     Recorder.killer := λ _, Recorder.KillerDone;
     Recorder.exit_poll := Some 0%nat |}.

(** A capture process that ignores every [terminate()] and dies on [kill()]. *)
Definition stubborn : Recorder.stop_env :=
  {| Recorder.alive_at_stop := true;
     Recorder.first_terminate := Recorder.Returns;
     Recorder.graceful_wait := Recorder.TimeoutExpired;
     Recorder.alive_in_round := λ _, true;
     Recorder.terminate_in_round := λ _, Recorder.Returns;
     Recorder.alive_after_rounds := true;
     Recorder.kill_call := Recorder.Returns;
     Recorder.killer := λ _, Recorder.KillerDone;
     Recorder.exit_poll := Some 2%nat |}.

(** A recorder that holds the handle of process 41 and reports recording. *)
Definition busy : Recorder.recorder :=
  {| Recorder.recording := true; Recorder.attempts := 0;
     Recorder.process := Some 41%nat; Recorder.capture_enabled := false |}.

(** A launch whose process stays silent until the watchdog gives up. *)
Definition silent (pid : nat) : Recorder.launch_outcome :=
  Recorder.Running pid [None; Some "ffmpeg version 6.0"; None] obedient.

(** A launch whose process reports frames. *)
Definition lively (pid : nat) : Recorder.launch_outcome :=
  Recorder.Running pid [None; Some "frame=    1 fps=0.0"] obedient.

(** Two video recipients, three text recipients. *)
Definition recipients : BotHandler.config :=
  {| BotHandler.users_whitelist_video := [1001; 1002];
     BotHandler.users_whitelist_text := [1001; 1002; 1003] |}.

(** A pass of the consumer in which the database file is empty, the first id
    drawn is ABCDEFGHIJKL and every send goes through at once. *)
Definition smooth : BotHandler.job_env :=
  {| BotHandler.flag_at_loop_head := true;
     BotHandler.loaded := ∅;
     BotHandler.id_picks := [λ j, j];
     BotHandler.flag_before_user := λ _, true;
     BotHandler.user_script := λ _, [BotHandler.Attempt (BotHandler.Sent 5)] |}.

(** Formats are returned as they are, paths are joined with a slash, local
    time is UTC and the conversion of a timestamp accepts the years 1 to
    9999 and raises for the others. *)
Definition plain : Main.platform :=
  {| Main.strftime := λ fmt _, fmt;
     Main.path_join := λ a b, a +:+ "/" +:+ b;
     Main.fromtimestamp := λ ts,
       if (-62135596800 <=? ts) && (ts <=? 253402300799)
       then Some (ts * Main.SECOND) else None;
     Main.format_interrupts := λ fmt _, fmt |}.

(** A configuration with a grace duration of ten seconds. *)
Definition settings : Main.config :=
  {| Main.record_extra := 10 * Main.SECOND;
     Main.event_test_text := "test";
     Main.event_text := "door opened";
     Main.event_text_start_time := "running since";
     Main.event_text_interrupts_num := "events today";
     Main.error_starting_recording := "error starting recording";
     Main.error_stopping_recording := "error stopping recording";
     Main.output_directory := "rec";
     Main.output_subdir_format := "1" |}.

(** Noon of day 19000 on the local calendar axis. *)
Definition noon : Z := (19000 * 86400 + 43200) * Main.SECOND.

(** A pass at unix time [seconds] that reads the given flags and finds the
    given listing; the counter file holds four events, the last at 01:00 of
    day 19000. *)
Definition pass (seconds : Z) (door pause : bool) (ls : list Main.dirent)
  : Main.tick_input :=
  {| Main.pause_requested := pause;
     Main.test_flag := false;
     Main.door_opened := door;
     Main.resume_time := noon;
     Main.event_time := noon;
     Main.today := noon;
     Main.counter_file := Main.Stored (19000 * 86400 + 3600) 4;
     Main.clock_interrupt := seconds * Main.SECOND;
     Main.clock_before_start := seconds * Main.SECOND;
     Main.clock_timer := seconds * Main.SECOND;
     Main.clock_stopped := seconds * Main.SECOND;
     Main.start_script := [lively 41];
     Main.stop_env := obedient;
     Main.listing := ls |}.


(** The segment that is being written. *)
Definition growing : list Main.dirent :=
  [ {| Main.name := "000.mp4"; Main.is_file := true; Main.size := 2500000 |} ].

(** A finished recording: two full segments, a stub and a subdirectory. *)
Definition finished : list Main.dirent :=
  [ {| Main.name := "002.mp4"; Main.is_file := true; Main.size := 400 |};
    {| Main.name := "000.mp4"; Main.is_file := true; Main.size := 9000000 |};
    {| Main.name := "thumbs"; Main.is_file := false; Main.size := 4096 |};
    {| Main.name := "001.mp4"; Main.is_file := true; Main.size := 7000000 |} ].

(** A session that is recording into [rec/1]. *)
Definition in_session : Main.state :=
  {| Main.recording := true; Main.recording_stopped_time := 0;
     Main.door_closed_timer := 0; Main.pause_requested_prev := true;
     Main.files_sent := []; Main.output_dir := Some "rec/1";
     Main.datetime_started := noon; Main.recorder_ := busy;
     Main.log := [] |}.

(** The same session after the recording was stopped. *)
Definition after_session : Main.state :=
  {| Main.recording := false; Main.recording_stopped_time := 0;
     Main.door_closed_timer := 0; Main.pause_requested_prev := false;
     Main.files_sent := []; Main.output_dir := Some "rec/1";
     Main.datetime_started := noon; Main.recorder_ := Recorder.init;
     Main.log := [] |}.

(** No session in the loop, while the recorder still reports recording. *)
Definition stale : Main.state :=
  {| Main.recording := false; Main.recording_stopped_time := 0;
     Main.door_closed_timer := 0; Main.pause_requested_prev := false;
     Main.files_sent := []; Main.output_dir := None;
     Main.datetime_started := noon; Main.recorder_ := busy;
     Main.log := [] |}.

(** Texts for the handlers; the refusal quotes no chat id, the file name of
    a path is the path. *)
Definition wording : BotHandler.texts :=
  {| BotHandler.start_text := "watching";
     BotHandler.start_text_not_in_whitelist := λ _, "not allowed";
     BotHandler.pause_text := "paused";
     BotHandler.rebooting_text := "rebooting";
     BotHandler.local_file_deleted_text := "local file deleted";
     BotHandler.are_you_sure_text := λ filename, "delete " +:+ filename;
     BotHandler.delete_local_file_btn_text := "Delete local file";
     BotHandler.no_btn_text := "No";
     BotHandler.yes_btn_text := "Yes";
     BotHandler.basename := λ p, p |}.

(** A database with one video that was delivered to both video recipients. *)
Definition library : gmap string BotHandler.video_record :=
  {[ "ABCDEFGHIJKL" :=
       BotHandler.mkVideoRecord "rec/1/000.mp4" [(1001, 70); (1002, 71)] ]}.

(** The file is there and can be removed; nobody else holds the lock. *)
Definition disk : BotHandler.callback_env :=
  {| BotHandler.cb_loaded := library;
     BotHandler.cb_reloaded := library;
     BotHandler.lock_released := true;
     BotHandler.file_exists := true;
     BotHandler.remove_returns := true |}.

(** Recipient 1002 presses a button with the given data under message 71. *)
Definition press (data : string) : BotHandler.update :=
  {| BotHandler.effective_chat := Some 1002;
     BotHandler.effective_message := Some 71;
     BotHandler.query_data := Some data |}.

(** No pause, no test, no deletion under way. *)
Definition calm : BotHandler.handler_state :=
  {| BotHandler.pause_requested := false;
     BotHandler.test_flag := false;
     BotHandler.deleting_in_progress := false |}.

End Samples.

(* ===================================================================== *)
(** * Properties of the recorder *)
(* ===================================================================== *)

Section RecorderFacts.
Import Recorder.

Lemma hard_kills_app l1 l2 :
  hard_kills (l1 ++ l2) = (hard_kills l1 + hard_kills l2)%nat.
Proof. unfold hard_kills. by rewrite filter_app, length_app. Qed.

Lemma launches_app l1 l2 :
  launches (l1 ++ l2) = (launches l1 + launches l2)%nat.
Proof. unfold launches. by rewrite filter_app, length_app. Qed.

Lemma hard_kills_cons e l :
  hard_kills (e :: l) = ((if is_hard_kill e then 1 else 0) + hard_kills l)%nat.
Proof.
  unfold hard_kills. rewrite filter_cons.
  destruct (is_hard_kill e); case_decide; simpl; congruence.
Qed.

Lemma launches_cons e l :
  launches (e :: l) = ((if is_launch e then 1 else 0) + launches l)%nat.
Proof.
  unfold launches. rewrite filter_cons.
  destruct (is_launch e); case_decide; simpl; congruence.
Qed.

Lemma hard_kills_nil : hard_kills [] = 0%nat.
Proof. reflexivity. Qed.

Lemma launches_nil : launches [] = 0%nat.
Proof. reflexivity. Qed.

Lemma sleeps_quiet n :
  hard_kills (repeat EvSleep n) = 0%nat ∧ launches (repeat EvSleep n) = 0%nat.
Proof.
  induction n as [|n [IHk IHl]]; [done|]. simpl.
  rewrite hard_kills_cons, launches_cons, IHk, IHl. done.
Qed.

Lemma terminate_rounds_quiet env i n :
  hard_kills (terminate_rounds env i n) = 0%nat
  ∧ launches (terminate_rounds env i n) = 0%nat.
Proof.
  revert i. induction n as [|n IH]; intros i; simpl; [done|].
  destruct (alive_in_round env i); [|done].
  destruct (terminate_in_round env i); [|done].
  rewrite !hard_kills_cons, !launches_cons. simpl. apply IH.
Qed.

(** The graceful block never invokes the hard-kill command and never
    launches the capture command. *)
Lemma graceful_quiet env :
  hard_kills (graceful env).1 = 0%nat ∧ launches (graceful env).1 = 0%nat.
Proof.
  unfold graceful.
  destruct (terminate_rounds_quiet env 0 TERMINATE_ROUNDS) as [Hk Hl].
  destruct (alive_at_stop env); [|done].
  destruct (first_terminate env); [|done].
  destruct (graceful_wait env); [done| |done].
  destruct (alive_after_rounds env); [destruct (kill_call env)|]; cbn [fst];
    rewrite hard_kills_cons, launches_cons, hard_kills_app, launches_app,
      Hk, Hl; done.
Qed.

(** The graceful block is left by an exception only through [kill()]. *)
Lemma graceful_completes env :
  kill_call env = Returns → (graceful env).2 = true.
Proof.
  intros Hk. unfold graceful. rewrite Hk.
  destruct (alive_at_stop env), (first_terminate env), (graceful_wait env),
    (alive_after_rounds env); done.
Qed.

Lemma hard_kill_rounds_launches env i n :
  launches (hard_kill_rounds env i n).1 = 0%nat.
Proof.
  revert i. induction n as [|n IH]; intros i; simpl; [done|].
  destruct (killer env i); [|done..].
  specialize (IH (S i)). destruct (hard_kill_rounds env (S i) n) as [evs ok].
  simpl in *. rewrite !launches_cons. simpl. done.
Qed.

(** When no round raises, the loop invokes the command once per round. *)
Lemma hard_kill_rounds_all env i n :
  (∀ j, (i ≤ j < i + n)%nat → killer env j = KillerDone) →
  hard_kills (hard_kill_rounds env i n).1 = n
  ∧ (hard_kill_rounds env i n).2 = true.
Proof.
  revert i. induction n as [|n IH]; intros i H; simpl; [done|].
  rewrite (H i) by lia.
  destruct (IH (S i)) as [IH1 IH2]; [intros j Hj; apply H; lia|].
  destruct (hard_kill_rounds env (S i) n) as [evs ok]. simpl in *.
  rewrite !hard_kills_cons. simpl. by rewrite IH1, IH2.
Qed.

(** Whatever happens, the loop invokes the command at most once per round. *)
Lemma hard_kill_rounds_bound env i n :
  (hard_kills (hard_kill_rounds env i n).1 ≤ n)%nat.
Proof.
  revert i. induction n as [|n IH]; intros i; simpl; [done|].
  destruct (killer env i); cbn [fst];
    [|rewrite hard_kills_cons, hard_kills_nil; simpl; lia..].
  specialize (IH (S i)). destruct (hard_kill_rounds env (S i) n) as [evs ok].
  cbn [fst] in *. rewrite !hard_kills_cons. simpl. lia.
Qed.

(** [stop] never launches the capture command. *)
Lemma stop_launches env from_self r :
  launches (stop_events (stop env from_self r)) = 0%nat.
Proof.
  unfold stop. destruct (process r) as [pid|]; [|done].
  destruct (graceful_quiet env) as [_ Hg].
  pose proof (hard_kill_rounds_launches env 0 HARD_KILL_ROUNDS) as Hh.
  destruct (graceful env) as [evs1 ok1].
  destruct (hard_kill_rounds env 0 HARD_KILL_ROUNDS) as [evs2 ok2].
  simpl in *. destruct ok1; [|done]. destruct ok2; [|simpl].
  - destruct (exit_poll env) as [n|]; simpl;
      rewrite ?launches_app, ?Hg, ?Hh; [|done].
    by destruct (sleeps_quiet n) as [_ ->].
  - by rewrite launches_app, Hg, Hh.
Qed.

(** [stop(from_self=True)] leaves the attempt counter alone. *)
Lemma stop_from_self_attempts env r :
  attempts (stop_recorder (stop env true r)) = attempts r.
Proof.
  unfold stop. destruct (process r); [|done].
  destruct (graceful env) as [evs1 []]; [|done].
  destruct (hard_kill_rounds env 0 HARD_KILL_ROUNDS) as [evs2 []]; [|done].
  by destruct (exit_poll env).
Qed.

End RecorderFacts.

Section RecorderClaims.
Import Recorder.

Lemma stop_status_returns env from_self r :
  stop_returns env = true →
  stop_status_of (stop env from_self r) = StopReturned.
Proof.
  unfold stop_returns, stop. intros H. destruct (process r) as [pid|]; [|done].
  destruct (graceful env) as [evs1 []]; [|done].
  destruct (hard_kill_rounds env 0 HARD_KILL_ROUNDS) as [evs2 []]; [|done].
  destruct (exit_poll env); [done|]. simpl in H. done.
Qed.

(** C2, as the code has it: a [stop()] call that finds a process handle
    invokes the external hard-kill command exactly three times whatever the
    graceful termination did (process already gone, exited in time, timed
    out and escalated, [terminate()] or [wait()] raising), provided neither
    [kill()] nor a hard-kill round raises; a [stop()] call that finds no
    process handle returns without invoking it. *)
Theorem C2_stop_hard_kill_count env from_self r :
  kill_call env = Returns →
  (∀ i, (i < HARD_KILL_ROUNDS)%nat → killer env i = KillerDone) →
  hard_kills (stop_events (stop env from_self r)) =
    match process r with Some _ => HARD_KILL_ROUNDS | None => 0%nat end.
Proof.
  intros Hkill Hkiller. unfold stop. destruct (process r) as [pid|]; [|done].
  pose proof (graceful_completes env Hkill) as Hok.
  destruct (graceful_quiet env) as [Hg _].
  destruct (hard_kill_rounds_all env 0 HARD_KILL_ROUNDS) as [Hn Hok2].
  { intros j Hj. apply Hkiller. lia. }
  destruct (graceful env) as [evs1 ok1].
  destruct (hard_kill_rounds env 0 HARD_KILL_ROUNDS) as [evs2 ok2].
  cbn [fst snd] in *. subst ok1 ok2.
  destruct (exit_poll env) as [n|]; cbn [stop_events];
    rewrite ?hard_kills_app, Hg, Hn; [|done].
  destruct (sleeps_quiet n) as [-> _]. lia.
Qed.

Lemma C2_stop_hard_kill_count_witness :
  hard_kills (stop_events (stop Samples.stubborn false Samples.busy)) = 3%nat.
Proof.
  apply (C2_stop_hard_kill_count Samples.stubborn false Samples.busy).
  - reflexivity.
  - intros i _. reflexivity.
Defined.

(** C2 as stated fails: a [stop()] call on a recorder that holds no process
    handle (the state main's exit path meets when nothing was ever recorded)
    returns at the first line and invokes the hard-kill command zero times. *)
Lemma C2_stop_without_process :
  process init = None
  ∧ hard_kills (stop_events (stop Samples.obedient false init)) = 0%nat
  ∧ ¬ (∀ env from_self r,
         hard_kills (stop_events (stop env from_self r)) = HARD_KILL_ROUNDS).
Proof.
  split; [reflexivity|]. split; [reflexivity|].
  intros H. specialize (H Samples.obedient false init). discriminate H.
Qed.

(** X5: every launch made by [start] is either the last one or a timeout;
    whatever the environment does, one call launches the capture command at
    most [START_ATTEMPTS - attempts] times, or once when the counter has
    already reached the maximum. *)
Lemma start_launches_bound dir script r :
  (launches (start_events (start dir script r))
   ≤ Nat.max 1 (START_ATTEMPTS - attempts r))%nat.
Proof.
  revert r. induction script as [|o script IH]; intros r; cbn [start].
  - cbn [start_events]. rewrite launches_nil. lia.
  - destruct o as [| |pid|pid reads env]; cbn [start_events];
      rewrite ?launches_cons, ?launches_nil; cbn [is_launch]; try lia.
    set (r1 := {| recording := recording r; attempts := S (attempts r);
                  process := Some pid; capture_enabled := true |}).
    destruct (watchdog reads); cbn [start_events].
    { rewrite launches_cons, launches_nil. cbn [is_launch]. lia. }
    pose proof (stop_launches env true r1) as Hs.
    pose proof (stop_from_self_attempts env r1) as Ha.
    destruct (stop_status_of (stop env true r1)); cbn [start_events].
    + destruct (Nat.leb_spec START_ATTEMPTS
                  (attempts (stop_recorder (stop env true r1)))) as [Hle|Hlt];
        cbn [start_events prepend].
      * rewrite launches_cons, Hs. cbn [is_launch]. lia.
      * repeat (rewrite launches_app || rewrite launches_cons
                || rewrite launches_nil).
        rewrite Hs. cbn [is_launch].
        specialize (IH (stop_recorder (stop env true r1))).
        rewrite Ha in *. cbn [attempts r1] in *. lia.
    + rewrite launches_cons, Hs. cbn [is_launch]. lia.
Qed.

(** C3, as the code has it: when every launch of a [start] call ends in a
    watchdog timeout, [start] calls [stop(from_self=True)] on the process
    after every launch, pauses for a second and retries itself until the
    attempt counter reaches the maximum (three launches when it began at 0),
    then resets the counter to 0 and returns [None]: what was done is
    launch, stop, pause, launch, stop, ... as the claim's words have it, and
    the recorder is the one the last [stop] left, with the counter at 0. A
    launch failure (the process already exited at the first [poll()], or
    [Popen] raising) returns [None] after that one launch, whatever the
    recorder and whatever further launches would do. *)
Theorem C3_start_retries_on_timeout dir timeouts rest r :
  Forall (λ o, times_out o = true) timeouts →
  (1 ≤ length timeouts)%nat →
  (attempts r + length timeouts = START_ATTEMPTS)%nat →
  let o := start dir (timeouts ++ rest) r in
  start_result_of o = Failed
  ∧ attempts (start_recorder o) = 0%nat
  ∧ launches (start_events o) = length timeouts
  ∧ start_events o = (timeout_rounds timeouts r).2
  ∧ start_recorder o = set_attempts 0 (timeout_rounds timeouts r).1
  ∧ (∀ pid more r',
       start_result_of (start dir (ExitedAtOnce pid :: more) r') = Failed
       ∧ start_events (start dir (ExitedAtOnce pid :: more) r')
         = [EvLaunch pid])
  ∧ (∀ more r',
       start_result_of (start dir (PopenRaises :: more) r') = Failed
       ∧ start_events (start dir (PopenRaises :: more) r')
         = [EvLaunchFailed]).
Proof.
  intros Hall Hlen Hsum. cbn zeta.
  assert (start_result_of (start dir (timeouts ++ rest) r) = Failed
          ∧ attempts (start_recorder (start dir (timeouts ++ rest) r)) = 0%nat
          ∧ launches (start_events (start dir (timeouts ++ rest) r))
            = length timeouts
          ∧ start_events (start dir (timeouts ++ rest) r)
            = (timeout_rounds timeouts r).2
          ∧ start_recorder (start dir (timeouts ++ rest) r)
            = set_attempts 0 (timeout_rounds timeouts r).1)
    as (H1 & H2 & H3 & H4 & H5);
    [|by repeat (split; [done|])].
  revert r Hall Hlen Hsum.
  induction timeouts as [|t ts IH]; intros r Hall Hlen Hsum;
    [simpl in Hlen; lia|].
  apply Forall_cons in Hall as [Ht Hts].
  destruct t as [| |pid|pid reads env]; try discriminate Ht.
  simpl in Ht. apply andb_true_iff in Ht as [Hw Hret].
  apply negb_true_iff in Hw. cbn [app start timeout_rounds]. rewrite Hw.
  set (r1 := {| recording := recording r; attempts := S (attempts r);
                process := Some pid; capture_enabled := true |}).
  rewrite (stop_status_returns env true r1 Hret).
  pose proof (stop_launches env true r1) as Hs.
  pose proof (stop_from_self_attempts env r1) as Ha.
  destruct (Nat.leb_spec START_ATTEMPTS
              (attempts (stop_recorder (stop env true r1)))) as [Hle|Hlt].
  - rewrite Ha in Hle. simpl in Hle, Hsum.
    destruct ts as [|t' ts']; [|simpl in Hsum; lia].
    cbn [start_result_of start_recorder start_events set_attempts attempts
         fst snd].
    rewrite launches_cons, Hs. done.
  - rewrite Ha in Hlt. simpl in Hlt, Hsum.
    destruct ts as [|t' ts']; [simpl in Hsum; lia|].
    destruct (IH (stop_recorder (stop env true r1)))
      as (H1 & H2 & H3 & H4 & H5);
      [done| simpl; lia | rewrite Ha; simpl in *; lia |].
    cbn [prepend start_result_of start_recorder start_events].
    destruct (timeout_rounds (t' :: ts') (stop_recorder (stop env true r1)))
      as [r' evs] eqn:Hrounds.
    cbn [fst snd] in *.
    split; [done|]. split; [done|]. split; [|split; [|done]].
    + repeat (rewrite launches_app || rewrite launches_cons
              || rewrite launches_nil).
      rewrite Hs, H3. simpl. lia.
    + rewrite H4. cbn [app]. by rewrite <- app_assoc.
Qed.

Lemma C3_start_retries_on_timeout_witness :
  let timeouts := [Samples.silent 1; Samples.silent 2; Samples.silent 3] in
  let o := start "rec/2024" (timeouts ++ [Samples.lively 4]) init in
  let stopping := [EvTerminate; EvHardKill; EvSleep; EvHardKill; EvSleep;
                   EvHardKill; EvSleep] in
  start_result_of o = Failed
  ∧ attempts (start_recorder o) = 0%nat
  ∧ launches (start_events o) = 3%nat
  ∧ start_events o
    = EvLaunch 1 :: stopping ++ EvSleep
      :: EvLaunch 2 :: stopping ++ EvSleep
      :: EvLaunch 3 :: stopping
  ∧ start_recorder o = init
  ∧ (∀ pid more r',
       start_result_of (start "rec/2024" (ExitedAtOnce pid :: more) r')
       = Failed
       ∧ start_events (start "rec/2024" (ExitedAtOnce pid :: more) r')
         = [EvLaunch pid])
  ∧ (∀ more r',
       start_result_of (start "rec/2024" (PopenRaises :: more) r') = Failed
       ∧ start_events (start "rec/2024" (PopenRaises :: more) r')
         = [EvLaunchFailed]).
Proof.
  apply (C3_start_retries_on_timeout "rec/2024"
           [Samples.silent 1; Samples.silent 2; Samples.silent 3]
           [Samples.lively 4] init).
  - repeat constructor.
  - simpl; lia.
  - reflexivity.
Defined.

(** C3 as stated fails for launch failures: when the capture process has
    already exited at the first [poll()], or when [Popen] raises, [start]
    returns [None] after that single launch, although a second launch would
    have succeeded, and it leaves the attempt counter at 1. *)
Lemma C3_launch_failure_not_retried :
  (let o := start "rec/2024"
              [ExitedAtOnce 1; Samples.lively 2; Samples.lively 3] init in
   start_result_of o = Failed
   ∧ launches (start_events o) = 1%nat
   ∧ attempts (start_recorder o) = 1%nat)
  ∧ (let o := start "rec/2024"
                [PopenRaises; Samples.lively 2; Samples.lively 3] init in
     start_result_of o = Failed
     ∧ launches (start_events o) = 1%nat
     ∧ attempts (start_recorder o) = 1%nat).
Proof. split; vm_compute; done. Qed.

End RecorderClaims.

(* ===================================================================== *)
(** * Properties of the delivery queue *)
(* ===================================================================== *)

Section DeliveryFacts.
Import BotHandler.









End DeliveryFacts.

Section DeliveryClaims.
Import BotHandler.



(** ** Identifier generation *)

Lemma string_of_list_length l :
  String.length (string_of_list_ascii l) = length l.
Proof. induction l as [|c l IH]; simpl; congruence. Qed.

Lemma choices_length population k pick :
  String.length (choices population k pick) = k.
Proof.
  unfold choices. by rewrite string_of_list_length, length_map, length_seq.
Qed.

Lemma choices_from population k pick :
  population ≠ [] →
  Forall (λ c, c ∈ population)
    (list_ascii_of_string (choices population k pick)).
Proof.
  intros Hne. unfold choices. rewrite list_ascii_of_string_of_list_ascii.
  apply Forall_forall. intros c Hc. apply list_elem_of_In in Hc.
  apply in_map_iff in Hc as (j & <- & _).
  apply list_elem_of_In, nth_In, Nat.mod_upper_bound.
  destruct population; [done|]. simpl. lia.
Qed.

Lemma candidate_truthy pick :
  opt_truthy (Some (choices alphabet VIDEO_ID_LENGTH pick)) = true.
Proof.
  pose proof (choices_length alphabet VIDEO_ID_LENGTH pick) as H.
  simpl. destruct (choices alphabet VIDEO_ID_LENGTH pick); [discriminate H|done].
Qed.

Lemma id_in_spec v (msgs : gmap string video_record) :
  id_in (Some v) msgs = true ↔ is_Some (msgs !! v).
Proof. unfold id_in. by rewrite bool_decide_eq_true. Qed.

(** The loop returns the first candidate that is not a key, and is still
    running at the end of the script only if every candidate was a key. *)
Lemma generate_video_id_spec picks cur (msgs : gmap string video_record) :
  (negb (opt_truthy cur) || id_in cur msgs) = true →
  match generate_video_id picks cur msgs with
  | Some v =>
      ∃ before pick after,
        picks = before ++ pick :: after
        ∧ v = choices alphabet VIDEO_ID_LENGTH pick
        ∧ msgs !! v = None
        ∧ Forall (λ q, is_Some (msgs !! choices alphabet VIDEO_ID_LENGTH q))
            before
  | None =>
      Forall (λ q, is_Some (msgs !! choices alphabet VIDEO_ID_LENGTH q)) picks
  end.
Proof.
  revert cur. induction picks as [|p rest IH]; intros cur Hcur.
  - cbn [generate_video_id]. rewrite Hcur. constructor.
  - cbn [generate_video_id]. rewrite Hcur.
    set (c := choices alphabet VIDEO_ID_LENGTH p).
    destruct (id_in (Some c) msgs) eqn:Hin.
    + specialize (IH (Some c)). rewrite Hin, orb_true_r in IH.
      specialize (IH eq_refl). apply id_in_spec in Hin.
      destruct (generate_video_id rest (Some c) msgs) as [v|].
      * destruct IH as (before & pick & after & -> & -> & Hv & Hb).
        exists (p :: before), pick, after. repeat split; try done.
        by constructor.
      * by constructor.
    + assert (generate_video_id rest (Some c) msgs = Some c) as ->.
      { destruct rest; cbn [generate_video_id];
          unfold c at 1; rewrite candidate_truthy; fold c; by rewrite Hin. }
      exists [], p, rest. repeat split; try done.
      destruct (msgs !! c) eqn:E; [|done].
      assert (id_in (Some c) msgs = true) by (apply id_in_spec; by rewrite E).
      congruence.
Qed.

(** C6: the id-generation loop leaves only with a 12-character id over the
    alphanumeric alphabet that is not a key of the loaded database, namely
    the first such candidate drawn; it is still running when the randomness
    is used up only if every candidate drawn was a key. Inserting the new
    record therefore keeps every record that was there. *)
Theorem C6_generated_id_is_fresh picks (msgs : gmap string video_record) new :
  match generate_video_id picks None msgs with
  | Some video_id =>
      msgs !! video_id = None
      ∧ (video_id ∉ dom msgs)
      ∧ String.length video_id = VIDEO_ID_LENGTH
      ∧ Forall (λ c, c ∈ alphabet) (list_ascii_of_string video_id)
      ∧ (∃ before pick after,
           picks = before ++ pick :: after
           ∧ video_id = choices alphabet VIDEO_ID_LENGTH pick
           ∧ Forall (λ q, is_Some (msgs !! choices alphabet VIDEO_ID_LENGTH q))
               before)
      ∧ (∀ k rec, msgs !! k = Some rec →
           <[video_id := new]> msgs !! k = Some rec)
      ∧ size (<[video_id := new]> msgs) = S (size msgs)
  | None =>
      Forall (λ q, is_Some (msgs !! choices alphabet VIDEO_ID_LENGTH q)) picks
  end.
Proof.
  pose proof (generate_video_id_spec picks None msgs eq_refl) as H.
  destruct (generate_video_id picks None msgs) as [v|]; [|done].
  destruct H as (before & pick & after & Hp & Hv & Hfresh & Hb).
  split; [done|]. split; [by apply not_elem_of_dom|].
  split; [subst v; apply choices_length|].
  split; [subst v; by apply choices_from|].
  split; [by exists before, pick, after|].
  split; [|by apply map_size_insert_None].
  intros k rec Hk. rewrite lookup_insert_ne; [done|]. congruence.
Qed.

End DeliveryClaims.

Section DeliveryJobs.
Import BotHandler.

(** A send loop that starts from a database whose record of [vid] carries
    [sent] keeps the log discipline and ends in such a database again. *)
Lemma send_loop_persisted user_id data vid base script tries sent :
  let o := send_loop true user_id data (Some vid) script tries
             (<[vid := mkVideoRecord data sent]> base) in
  ∃ sent',
    send_db o = <[vid := mkVideoRecord data sent']> base
    ∧ ∀ rest, appends_persisted vid data base sent' rest →
              appends_persisted vid data base sent (send_events o ++ rest).
Proof.
  revert tries. induction script as [|it script IH]; intros tries; cbn zeta.
  - exists sent. done.
  - destruct it as [|r]; [by exists sent|]. cbn [send_loop].
    assert (∀ network : bool,
      (∀ m, r = Sent m → (0 <=? m) = false) →
      let o :=
        if (SEND_FILE_TRIES_MAX <=? after_failure tries network)%nat
        then mkSendOutcome Abandoned (<[vid := mkVideoRecord data sent]> base)
               [EvSend true user_id data r]
        else
          let o' := send_loop true user_id data (Some vid) script
                      (after_failure tries network)
                      (<[vid := mkVideoRecord data sent]> base) in
          mkSendOutcome (send_exit_of o') (send_db o')
            (EvSend true user_id data r :: EvWait true :: send_events o') in
      ∃ sent',
        send_db o = <[vid := mkVideoRecord data sent']> base
        ∧ ∀ rest, appends_persisted vid data base sent' rest →
                  appends_persisted vid data base sent (send_events o ++ rest))
      as Hfail.
    { intros network Hr. cbn zeta.
      destruct (SEND_FILE_TRIES_MAX <=? after_failure tries network)%nat.
      - exists sent. split; [done|]. intros rest Hrest. cbn.
        destruct r as [m| |]; [rewrite (Hr m eq_refl)|..]; done.
      - destruct (IH (after_failure tries network)) as (sent' & Hdb & Hlog).
        exists sent'. split; [done|]. intros rest Hrest. cbn.
        destruct r as [m| |]; [rewrite (Hr m eq_refl)|..]; cbn; by apply Hlog. }
    destruct r as [m| |].
    + destruct (0 <=? m) eqn:Hm.
      * cbn [append_message]. rewrite lookup_insert_eq. cbn [path messages].
        rewrite insert_insert_eq.
        exists (sent ++ [(user_id, m)]). split; [done|].
        intros rest Hrest. cbn. rewrite Hm. done.
      * apply (Hfail false). intros m' [= <-]. done.
    + apply (Hfail true). done.
    + apply (Hfail false). done.
Qed.

Lemma send_text_or_video_persisted user_id data vid base script sent :
  let o := send_text_or_video true user_id data (Some vid) script
             (<[vid := mkVideoRecord data sent]> base) in
  ∃ sent',
    send_db o = <[vid := mkVideoRecord data sent']> base
    ∧ ∀ rest, appends_persisted vid data base sent' rest →
              appends_persisted vid data base sent (send_events o ++ rest).
Proof.
  cbn zeta. unfold send_text_or_video.
  destruct (send_loop_persisted user_id data vid base script 0 sent)
    as (sent' & Hdb & Hlog).
  exists sent'.
  destruct (send_exit_of (send_loop true user_id data (Some vid) script 0
                            (<[vid := mkVideoRecord data sent]> base)));
    cbn [send_db send_events]; (split; [done|]); intros rest Hrest;
    rewrite <- ?app_assoc; by apply Hlog.
Qed.

Lemma send_to_users_persisted data vid base env i users sent :
  let u := send_to_users true data (Some vid) env i users
             (<[vid := mkVideoRecord data sent]> base) in
  ∃ sent',
    users_db u = <[vid := mkVideoRecord data sent']> base
    ∧ ∀ rest, appends_persisted vid data base sent' rest →
              appends_persisted vid data base sent (users_events u ++ rest).
Proof.
  revert i sent. induction users as [|user_id users IH]; intros i sent;
    cbn zeta; cbn [send_to_users].
  - by exists sent.
  - destruct (flag_before_user env i); [|by exists sent].
    destruct (send_text_or_video_persisted user_id data vid base
                (user_script env i) sent) as (sent1 & Hdb & Hlog).
    set (o := send_text_or_video true user_id data (Some vid)
                (user_script env i) (<[vid := mkVideoRecord data sent]> base))
      in *.
    assert (∃ sent',
      users_db
        (let u := send_to_users true data (Some vid) env (S i) users
                    (send_db o) in
         mkUsersOutcome (users_finished u) (users_db u)
           (send_events o ++ users_events u))
      = <[vid := mkVideoRecord data sent']> base
      ∧ ∀ rest, appends_persisted vid data base sent' rest →
          appends_persisted vid data base sent
            (users_events
               (let u := send_to_users true data (Some vid) env (S i) users
                           (send_db o) in
                mkUsersOutcome (users_finished u) (users_db u)
                  (send_events o ++ users_events u)) ++ rest)) as Hgo.
    { rewrite Hdb. destruct (IH (S i) sent1) as (sent2 & Hdb2 & Hlog2).
      exists sent2. cbn [users_db users_events]. split; [done|].
      intros rest Hrest. rewrite <- app_assoc. by apply Hlog, Hlog2. }
    destruct (send_exit_of o); try exact Hgo.
    exists sent1. by split.
Qed.

(** C7: a video job whose id generation draws an unused id persists first:
    the job has that id, and its first event is the dump of the loaded
    database extended by the record [{id, path, []}], before anything is
    sent. What follows is what the loop over the video recipients does from
    that database: every send that returns a message id >= 0 is directly
    followed by a dump of the whole database in which the pair
    [(recipient, message id)] has been appended to that record, and nothing
    else is dumped; in particular, when the first recipient's first send
    returns such an id, the job goes on with that send and the dump of the
    record with this one pair. *)
Theorem C7_record_persisted_before_sends cfg env data_to_send :
  startswith "video_" data_to_send = true →
  Exists (λ q, loaded env !! choices alphabet VIDEO_ID_LENGTH q = None)
    (id_picks env) →
  let j := process_job cfg env data_to_send in
  let data := drop_prefix 6 data_to_send in
  ∃ video_id,
    let base := <[video_id := mkVideoRecord data []]> (loaded env) in
    let sends :=
      users_events
        (send_to_users true data (Some video_id) env 0
           (users_whitelist_video cfg) base) in
    job_video_id j = Some video_id
    ∧ loaded env !! video_id = None
    ∧ job_events j = EvWriteDb base :: sends
    ∧ appends_persisted video_id data base [] sends
    ∧ ∀ user_id users message_id more,
        users_whitelist_video cfg = user_id :: users →
        flag_before_user env 0 = true →
        user_script env 0 = Attempt (Sent message_id) :: more →
        0 ≤ message_id →
        ∃ later,
          sends
          = EvSend true user_id data (Sent message_id)
            :: EvWriteDb
                 (<[video_id :=
                      mkVideoRecord data [(user_id, message_id)]]> base)
            :: later.
Proof.
  intros Hv Hfresh. cbn zeta. unfold process_job. rewrite Hv.
  pose proof (generate_video_id_spec (id_picks env) None (loaded env) eq_refl)
    as Hgen.
  destruct (generate_video_id (id_picks env) None (loaded env)) as [vid|].
  2:{ apply Exists_exists in Hfresh as (q & Hq & Hnone).
      rewrite Forall_forall in Hgen. destruct (Hgen q Hq) as [rec Hrec].
      congruence. }
  destruct Hgen as (before & pick & after & _ & _ & Hunused & _).
  exists vid. cbn [job_video_id job_events].
  set (data := drop_prefix 6 data_to_send).
  set (base := <[vid := mkVideoRecord data []]> (loaded env)).
  split; [done|]. split; [done|]. split; [done|]. split.
  - destruct (send_to_users_persisted data vid base env 0
                (users_whitelist_video cfg) []) as (sent' & _ & Hlog).
    assert (<[vid := mkVideoRecord data []]> base = base) as Hbase
      by apply insert_insert_eq.
    rewrite Hbase in Hlog.
    specialize (Hlog [] I). by rewrite app_nil_r in Hlog.
  - intros user_id users message_id more Husers Hflag Hscript Hid.
    rewrite Husers. cbn [send_to_users]. rewrite Hflag, Hscript.
    unfold send_text_or_video. cbn [send_loop].
    assert ((0 <=? message_id) = true) as -> by by apply Z.leb_le.
    assert (base !! vid = Some (mkVideoRecord data [])) as Hlook
      by apply lookup_insert_eq.
    cbn [append_message]. rewrite Hlook.
    cbn [path messages app send_exit_of send_db send_events users_events].
    by eexists.
Qed.

(** C10: with the jobs [pre] ahead of it all processed, a dequeued job
    string that starts with neither [video_] nor [text_] makes the loop
    function return: nothing is done for it, and every item queued behind it
    is left in the queue. *)
Theorem C10_unknown_job_ends_consumer cfg envs n pre bad post :
  startswith "video_" bad = false →
  startswith "text_" bad = false →
  loop_exit_of (sending_thread_loop cfg envs n (Some <$> pre)) = BlockedOnGet →
  sending_thread_loop cfg envs n ((Some <$> pre) ++ Some bad :: post)
  = mkLoopOutcome ExitUnknownJob post
      (jobs_begun (sending_thread_loop cfg envs n (Some <$> pre)))
      (loop_events (sending_thread_loop cfg envs n (Some <$> pre))).
Proof.
  intros Hv Ht. revert n. induction pre as [|job pre IH]; intros n Hpre.
  - cbn [fmap list_fmap app sending_thread_loop] in *.
    destruct (flag_at_loop_head (envs n)); [|done].
    unfold process_job. rewrite Hv, Ht. done.
  - cbn [fmap list_fmap app sending_thread_loop] in *.
    destruct (flag_at_loop_head (envs n)); [|done].
    destruct (job_exit_of (process_job cfg (envs n) job)); try done.
    cbn [loop_exit_of] in Hpre. rewrite (IH (S n) Hpre). done.
Qed.

End DeliveryJobs.

Section DeliveryWitnesses.
Import BotHandler.

Lemma C7_record_persisted_before_sends_witness :
  let j := process_job Samples.recipients Samples.smooth "video_rec/1/000.mp4" in
  let data := "rec/1/000.mp4" in
  let video_id := "ABCDEFGHIJKL" in
  let base := <[video_id := mkVideoRecord data []]> (loaded Samples.smooth) in
  let sends :=
    users_events
      (send_to_users true data (Some video_id) Samples.smooth 0
         (users_whitelist_video Samples.recipients) base) in
  job_video_id j = Some video_id
  ∧ loaded Samples.smooth !! video_id = None
  ∧ job_events j = EvWriteDb base :: sends
  ∧ appends_persisted video_id data base [] sends
  ∧ ∃ later,
      sends
      = EvSend true 1001 data (Sent 5)
        :: EvWriteDb (<[video_id := mkVideoRecord data [(1001, 5)]]> base)
        :: later.
Proof.
  destruct (C7_record_persisted_before_sends
              Samples.recipients Samples.smooth "video_rec/1/000.mp4"
              eq_refl (Exists_cons_hd _ _ _ eq_refl))
    as (video_id & Hid & Hunused & Hevents & Hlog & Hfirst).
  assert (video_id = "ABCDEFGHIJKL") as ->.
  { vm_compute in Hid. congruence. }
  split; [exact Hid|]. split; [exact Hunused|]. split; [exact Hevents|].
  split; [exact Hlog|].
  apply (Hfirst 1001 [1002] 5 []); [reflexivity..|lia].
Defined.

Lemma C10_unknown_job_ends_consumer_witness :
  sending_thread_loop Samples.recipients (λ _, Samples.smooth) 0
    ((Some <$> ["text_door opened"])
     ++ Some "photo_rec/1/000.jpg" :: [Some "text_door closed"; None])
  = mkLoopOutcome ExitUnknownJob [Some "text_door closed"; None]
      (jobs_begun (sending_thread_loop Samples.recipients (λ _, Samples.smooth)
                     0 (Some <$> ["text_door opened"])))
      (loop_events (sending_thread_loop Samples.recipients
                      (λ _, Samples.smooth) 0 (Some <$> ["text_door opened"]))).
Proof.
  apply (C10_unknown_job_ends_consumer Samples.recipients (λ _, Samples.smooth)
           0 ["text_door opened"] "photo_rec/1/000.jpg"
           [Some "text_door closed"; None]).
  - reflexivity.
  - reflexivity.
  - vm_compute. reflexivity.
Defined.

End DeliveryWitnesses.

(* ===================================================================== *)
(** * Properties of the event loop *)
(* ===================================================================== *)

Section StringOrder.
Import Main.

#[global] Instance str_le_total : Total str_le.
Proof. intros a b. apply String.leb_total. Qed.

#[global] Instance str_le_antisymm : AntiSymm (=) str_le.
Proof. intros a b. apply String.leb_antisym. Qed.

Lemma str_le_compare a b : str_le a b ↔ String.compare a b ≠ Gt.
Proof.
  unfold str_le, String.leb. destruct (String.compare a b); split; congruence.
Qed.

#[global] Instance str_le_trans : Transitive str_le.
Proof.
  intros a b c Hab Hbc. apply str_le_compare in Hab, Hbc. apply str_le_compare.
  destruct (String.compare a b) eqn:E1; [| |done].
  - apply String_as_OT.cmp_eq in E1 as ->. done.
  - destruct (String.compare b c) eqn:E2; [| |done].
    + apply String_as_OT.cmp_eq in E2 as <-. congruence.
    + apply String_as_OT.cmp_lt in E1, E2.
      pose proof (String_as_OT.lt_trans _ _ _ E1 E2) as H.
      apply String_as_OT.cmp_lt in H. unfold String_as_OT.cmp in H. congruence.
Qed.

Lemma str_le_refl a : str_le a a.
Proof. by destruct (total str_le a a). Qed.

End StringOrder.

Section FileDiscovery.
Import Main.

Lemma unsent_sorted ls sent : Sorted str_le (unsent ls sent).
Proof. apply (Sorted_merge_sort str_le). Qed.

Lemma unsent_perm ls sent :
  unsent ls sent ≡ₚ filter (λ f, f ∉ sent) (file_names ls).
Proof. apply merge_sort_Permutation. Qed.

(** The head of the sorted list is its least element. *)
Lemma unsent_head_least ls sent first others g :
  unsent ls sent = first :: others → g ∈ first :: others → str_le first g.
Proof.
  intros Hu Hg. pose proof (unsent_sorted ls sent) as Hs. rewrite Hu in Hs.
  apply (Sorted_StronglySorted str_le) in Hs.
  apply StronglySorted_inv in Hs as [_ Hall].
  apply elem_of_cons in Hg as [->|Hg]; [apply str_le_refl|].
  rewrite Forall_forall in Hall. by apply Hall.
Qed.

Lemma filter_id {A} (P : A → Prop) `{∀ x, Decision (P x)} (l : list A) :
  Forall P l → filter P l = l.
Proof.
  induction 1 as [|x l Hx _ IH]; [done|].
  by rewrite filter_cons_True, IH.
Qed.

(** Marking the head as sent leaves the tail. *)
Lemma unsent_step ls sent first others :
  NoDup (file_names ls) →
  unsent ls sent = first :: others →
  unsent ls (sent ++ [first]) = others.
Proof.
  intros Hnd Hu.
  pose proof (unsent_sorted ls sent) as Hs. rewrite Hu in Hs.
  pose proof (unsent_perm ls sent) as Hp. rewrite Hu in Hp.
  assert (NoDup (first :: others)) as Hnd'.
  { rewrite Hp. by apply NoDup_filter. }
  apply NoDup_cons in Hnd' as [Hfirst _].
  assert (Forall (λ f, f ∉ sent ++ [first]) others) as Hall.
  { apply Forall_forall. intros x Hx Hin.
    apply elem_of_app in Hin as [Hin|Hin].
    - assert (x ∈ first :: others) as Hx' by (by right).
      rewrite Hp in Hx'. apply list_elem_of_filter in Hx' as [Hx' _]. done.
    - apply list_elem_of_singleton in Hin as ->. done. }
  apply (Sorted_unique str_le); [apply unsent_sorted|by inversion Hs|].
  rewrite unsent_perm.
  rewrite <- (list_filter_filter_l (λ f, f ∉ sent ++ [first]) (λ f, f ∉ sent))
    by (intros x Hx Hin; apply Hx, elem_of_app; by left).
  rewrite <- Hp. rewrite filter_cons_False, (filter_id _ _ Hall); [done|].
  intros Hx. apply Hx, elem_of_app. right. by apply list_elem_of_singleton.
Qed.

End FileDiscovery.

Section FileClaims.
Import Main.

(** The pass when a file is taken. *)
Lemma send_files_takes P i st dir first others :
  output_dir st = Some dir → str_truthy dir = true →
  unsent (listing i) (files_sent st) = first :: others →
  ((1 <? length (first :: others))%nat || negb (recording st)) = true →
  send_files P i st
  = {| recording := recording st;
       recording_stopped_time := recording_stopped_time st;
       door_closed_timer := door_closed_timer st;
       pause_requested_prev := pause_requested_prev st;
       files_sent := files_sent st ++ [first];
       output_dir := if (length others =? 0)%nat && negb (recording st)
                     then None else Some dir;
       datetime_started := datetime_started st;
       recorder_ := recorder_ st;
       log := if MINIMUM_FILE_SIZE <? getsize (listing i) first
              then log st ++ [EvQueuePut ("video_" +:+ path_join P dir first)]
              else log st |}.
Proof.
  intros Hd Ht Hu Hc. unfold send_files. rewrite Hd, Ht, Hu, Hc. done.
Qed.

(** What is logged for one file: a put when it is big enough. *)
Lemma log_of_one_file P i (l : list event) dir first :
  (if MINIMUM_FILE_SIZE <? getsize (listing i) first
   then l ++ [EvQueuePut ("video_" +:+ path_join P dir first)] else l)
  = l ++ map (λ f, EvQueuePut ("video_" +:+ path_join P dir f))
           (filter (λ f, MINIMUM_FILE_SIZE < getsize (listing i) f) [first]).
Proof.
  rewrite filter_cons, filter_nil.
  destruct (Z.ltb_spec MINIMUM_FILE_SIZE (getsize (listing i) first));
    [rewrite decide_True by done|rewrite decide_False by lia];
    simpl; by rewrite ?app_nil_r.
Qed.

(** After the recording has stopped, as many passes as there are unsent
    files take them all, in sorted order, and clear the directory. *)
Lemma drain_all P i dir pending :
  NoDup (file_names (listing i)) → str_truthy dir = true →
  ∀ st,
    recording st = false → output_dir st = Some dir →
    unsent (listing i) (files_sent st) = pending → pending ≠ [] →
    let st' := drain P i (length pending) st in
    output_dir st' = None
    ∧ files_sent st' = files_sent st ++ pending
    ∧ log st' = log st
                ++ map (λ f, EvQueuePut ("video_" +:+ path_join P dir f))
                     (filter (λ f, MINIMUM_FILE_SIZE < getsize (listing i) f)
                        pending).
Proof.
  intros Hnd Ht. induction pending as [|first others IH];
    intros st Hrec Hd Hu Hne; [done|]. cbn zeta. cbn [length drain].
  rewrite (send_files_takes P i st dir first others Hd Ht Hu)
    by (rewrite Hrec; apply orb_true_r).
  rewrite Hrec, andb_true_r. rewrite log_of_one_file.
  destruct others as [|second others].
  - cbn [length drain Nat.eqb output_dir files_sent log]. done.
  - cbn [length Nat.eqb].
    match goal with |- context [drain P i _ ?s] => set (st1 := s) end.
    destruct (IH st1) as (H1 & H2 & H3); try done.
    { unfold st1. cbn [files_sent]. by apply (unsent_step _ _ first). }
    cbn zeta in *. cbn [length] in *. split; [done|]. split.
    + rewrite H2. unfold st1. cbn [files_sent]. by rewrite <- app_assoc.
    + rewrite H3. unfold st1. cbn [log]. rewrite <- app_assoc, <- map_app.
      do 2 f_equal.
      change (first :: second :: others) with ([first] ++ second :: others).
      by rewrite filter_app.
Qed.

(** C5, as the code has it: while the session is recording, a pass takes at
    most the earliest unsent file, and only when at least two unsent files
    exist; once the recording has stopped the unsent files are taken one per
    pass in sorted order, and the output directory is cleared by the pass
    that takes the last one. A file that is taken is marked as sent, and it
    is put on the delivery queue only if it is larger than 1000000 bytes. *)
Theorem C5_file_discovery P i st dir :
  output_dir st = Some dir → str_truthy dir = true →
  NoDup (file_names (listing i)) →
  let pending := unsent (listing i) (files_sent st) in
  let put f := EvQueuePut ("video_" +:+ path_join P dir f) in
  let big f := MINIMUM_FILE_SIZE < getsize (listing i) f in
  (recording st = true →
   let st' := send_files P i st in
   output_dir st' = Some dir
   ∧ match pending with
     | first :: _ :: _ =>
         (∀ g, g ∈ pending → str_le first g)
         ∧ files_sent st' = files_sent st ++ [first]
         ∧ log st' = log st ++ map put (filter big [first])
     | _ => st' = st
     end)
  ∧ (recording st = false → pending ≠ [] →
     let st' := drain P i (length pending) st in
     output_dir st' = None
     ∧ files_sent st' = files_sent st ++ pending
     ∧ log st' = log st ++ map put (filter big pending)).
Proof.
  intros Hd Ht Hnd. cbn zeta. split.
  - intros Hrec.
    destruct (unsent (listing i) (files_sent st)) as [|first [|second others]]
      eqn:Hu.
    + unfold send_files. rewrite Hd, Ht, Hu. done.
    + unfold send_files. rewrite Hd, Ht, Hu, Hrec. done.
    + rewrite (send_files_takes P i st dir first (second :: others) Hd Ht Hu)
        by done.
      rewrite Hrec. cbn [length Nat.eqb andb negb output_dir files_sent log].
      split; [done|]. split; [|split; [done|apply log_of_one_file]].
      intros g Hg. by apply (unsent_head_least (listing i) (files_sent st)
                               first (second :: others)).
  - intros Hrec Hne. by apply (drain_all P i dir).
Qed.

Lemma C5_file_discovery_witness :
  let i := Samples.pass 1700000000 false false Samples.finished in
  let st := Samples.after_session in
  let pending := unsent (listing i) (files_sent st) in
  let put f := EvQueuePut ("video_" +:+ path_join Samples.plain "rec/1" f) in
  let big f := MINIMUM_FILE_SIZE < getsize (listing i) f in
  (recording st = true →
   let st' := send_files Samples.plain i st in
   output_dir st' = Some "rec/1"
   ∧ match pending with
     | first :: _ :: _ =>
         (∀ g, g ∈ pending → str_le first g)
         ∧ files_sent st' = files_sent st ++ [first]
         ∧ log st' = log st ++ map put (filter big [first])
     | _ => st' = st
     end)
  ∧ (recording st = false → pending ≠ [] →
     let st' := drain Samples.plain i (length pending) st in
     output_dir st' = None
     ∧ files_sent st' = files_sent st ++ pending
     ∧ log st' = log st ++ map put (filter big pending)).
Proof.
  apply (C5_file_discovery Samples.plain
           (Samples.pass 1700000000 false false Samples.finished)
           Samples.after_session "rec/1").
  - reflexivity.
  - reflexivity.
  - apply (bool_decide_unpack _). vm_compute. exact I.
Defined.

(** C5 as stated fails for small files: with the recording stopped and one
    unsent file of 400 bytes left, the pass marks the file as sent and clears
    the output directory, and nothing is put on the delivery queue. *)
Lemma C5_small_file_not_enqueued :
  let i := Samples.pass 1700000000 false false
             [ {| name := "002.mp4"; is_file := true; size := 400 |} ] in
  let st' := send_files Samples.plain i Samples.after_session in
  unsent (listing i) (files_sent Samples.after_session) = ["002.mp4"]
  ∧ queue_puts (log st') = []
  ∧ files_sent st' = ["002.mp4"]
  ∧ output_dir st' = None.
Proof. vm_compute. done. Qed.

End FileClaims.

Section LoopFacts.
Import Main.

Lemma pause_edge_keeps i st :
  recording (pause_edge i st) = recording st
  ∧ door_closed_timer (pause_edge i st) = door_closed_timer st
  ∧ recorder_ (pause_edge i st) = recorder_ st
  ∧ log (pause_edge i st) = log st.
Proof. unfold pause_edge. by destruct (negb _). Qed.

Lemma cancel_pass_keeps i st :
  recording (cancel_pass i st) = recording st
  ∧ recorder_ (cancel_pass i st) = recorder_ st
  ∧ log (cancel_pass i st) = log st.
Proof. unfold cancel_pass. by destruct (_ && _). Qed.

(** The file pass touches neither the session flag nor the timer nor the
    recorder, and logs nothing but queue puts. *)
Lemma send_files_keeps P i st :
  recording (send_files P i st) = recording st
  ∧ door_closed_timer (send_files P i st) = door_closed_timer st
  ∧ recorder_ (send_files P i st) = recorder_ st
  ∧ ∃ more, log (send_files P i st) = log st ++ more
            ∧ ∀ e, e ∈ more → ∃ s, e = EvQueuePut s.
Proof.
  assert (∃ more : list event, log st = log st ++ more
                   ∧ ∀ e, e ∈ more → ∃ s, e = EvQueuePut s) as Hsame.
  { exists []. rewrite app_nil_r. split; [done|]. by intros e Hin%elem_of_nil. }
  unfold send_files. destruct (output_dir st) as [dir|]; [|done].
  destruct (str_truthy dir); [|done].
  destruct (unsent (listing i) (files_sent st)) as [|file files]; [done|].
  destruct (_ || _); [|done]. cbn [recording door_closed_timer recorder_ log].
  do 3 (split; [done|]).
  destruct (MINIMUM_FILE_SIZE <? getsize (listing i) file); [|done].
  eexists. split; [done|]. intros e Hin%list_elem_of_singleton. by eexists.
Qed.

Lemma stop_pass_extends cfg i st :
  ∃ more, log (stop_pass cfg i st).2 = log st ++ more.
Proof.
  unfold stop_pass. destruct (_ && _); [|by exists []; rewrite app_nil_r].
  destruct (door_closed_timer st =? 0); [by exists []; rewrite app_nil_r|].
  destruct (record_extra cfg <? _); [|by exists []; rewrite app_nil_r].
  destruct (Recorder.recording (recorder_ st)); cbn [snd log]; by eexists.
Qed.

(** Local midnight is a whole number of days and the start of the day that
    contains the reading. *)
Lemma today_start_is_midnight today :
  today_start today `mod` DAY = 0
  ∧ today_start today ≤ today < today_start today + DAY.
Proof.
  unfold today_start. split; [apply Z_mod_mult|].
  assert (0 < DAY) as Hpos by done.
  pose proof (Z.div_mod today DAY ltac:(lia)) as Hdiv.
  pose proof (Z.mod_pos_bound today DAY Hpos) as Hmod. lia.
Qed.

(** The count of a sensor event whose stored timestamp converts, in the
    words of the interval. *)
Lemma count_interrupt_stored P ts n today stored :
  fromtimestamp P ts = Some stored →
  count_interrupt P (Stored ts n) today
  = Some (if decide (today_start today ≤ stored
                     ≤ today_start today + DAY - SECOND)
          then n + 1 else 1).
Proof.
  intros Hconv. unfold count_interrupt, today_end. cbn [read_counter].
  rewrite Hconv. f_equal.
  destruct (Z.ltb_spec stored (today_start today));
    destruct (Z.ltb_spec (today_start today + DAY - SECOND) stored);
    case_decide; simpl; lia.
Qed.

(** The count is there exactly when the conversion of the timestamp that was
    read returns. *)
Lemma count_interrupt_raises P read today :
  count_interrupt P read today = None
  ↔ fromtimestamp P (read_counter read).1 = None.
Proof.
  unfold count_interrupt. destruct (read_counter read) as [ts n]. cbn [fst].
  by destruct (fromtimestamp P ts).
Qed.

(** The start block of a pass after a notification: the log grows by the
    notification and what follows it. *)
Lemma start_session_extends P cfg i st notified :
  ∃ rest, log (start_session P cfg i st notified).2
          = log st ++ notified ++ rest.
Proof.
  unfold start_session.
  destruct (negb (Recorder.recording (recorder_ st)));
    [destruct (Recorder.start_result_of _)|]; cbn [snd log];
    rewrite <- ?app_assoc; by eexists.
Qed.

End LoopFacts.

Section LoopClaims.
Import Main.



(** The grace timer does what the claim says as long as the sensor stays
    closed: the pass that finds more than the grace duration elapsed turns
    the light off, clears the session flag and the timer, and calls
    [recorder_.stop()] when the recorder reports recording. *)
Lemma stop_pass_after_grace cfg i st :
  recording st = true → door_opened i = false →
  door_closed_timer st ≠ 0 →
  record_extra cfg < clock_timer i - door_closed_timer st →
  recording (stop_pass cfg i st).2 = false
  ∧ door_closed_timer (stop_pass cfg i st).2 = 0
  ∧ ∃ more, log (stop_pass cfg i st).2 = log st ++ EvLight false :: more
            ∧ (Recorder.recording (recorder_ st) = true →
               EvStopCalled ∈ more).
Proof.
  intros Hrec Hdoor Htimer Hgrace. unfold stop_pass.
  rewrite Hrec, Hdoor. cbn [negb orb andb].
  destruct (Z.eqb_spec (door_closed_timer st) 0); [done|].
  destruct (Z.ltb_spec (record_extra cfg)
              (clock_timer i - door_closed_timer st)); [|lia].
  destruct (Recorder.recording (recorder_ st)); cbn [snd recording
    door_closed_timer log app]; (split; [done|]); (split; [done|]);
    eexists; (split; [done|]); [intros _; by left|done].
Qed.

(** C4 fails on the code when the stop condition holds through the pause
    flag while the sensor is open: each pass starts the grace timer and
    cancels it again, so however long the pause lasts the session stays
    recording, the light is never turned off and [recorder_.stop()] is never
    called; the only events are queue puts of the file pass. *)
Theorem C4_pause_with_open_door_never_stops P cfg inputs st :
  recording st = true → door_closed_timer st = 0 →
  Forall (λ i, door_opened i = true ∧ pause_requested i = true
               ∧ clock_timer i ≠ 0) inputs →
  let r := run P cfg inputs st in
  r.1 = true
  ∧ recording r.2 = true
  ∧ door_closed_timer r.2 = 0
  ∧ recorder_ r.2 = recorder_ st
  ∧ ∀ e, e ∈ log r.2 → e ∈ log st ∨ ∃ s, e = EvQueuePut s.
Proof.
  intros Hrec Htimer Hall. revert st Hrec Htimer.
  induction Hall as [|i inputs (Hdoor & Hpause & Hclock) _ IH];
    intros st Hrec Htimer; cbn zeta.
  - cbn. repeat split; try done. by left.
  - cbn [run]. unfold tick.
    destruct (pause_edge_keeps i st) as (Hr0 & Ht0 & Hre0 & Hl0).
    set (st0 := pause_edge i st) in *.
    unfold start_pass. rewrite Hr0, Hrec, andb_false_r.
    unfold stop_pass. rewrite Hr0, Hrec, Hpause, orb_true_r, Ht0, Htimer.
    cbn [andb Z.eqb].
    match goal with
    | |- context [cancel_pass i ?s] => set (st2 := s)
    end.
    assert (cancel_pass i st2
            = {| recording := true;
                 recording_stopped_time := recording_stopped_time st0;
                 door_closed_timer := 0;
                 pause_requested_prev := pause_requested_prev st0;
                 files_sent := files_sent st0; output_dir := output_dir st0;
                 datetime_started := datetime_started st0;
                 recorder_ := recorder_ st0; log := log st0 |}) as Hcancel.
    { unfold cancel_pass, st2. cbn [recording door_closed_timer].
      rewrite Hdoor. destruct (Z.eqb_spec (clock_timer i) 0); [done|].
      cbn [andb negb recording_stopped_time pause_requested_prev files_sent
           output_dir datetime_started recorder_ log]. done. }
    rewrite Hcancel. clear Hcancel st2.
    match goal with
    | |- context [send_files P i ?s] => set (st3 := s)
    end.
    destruct (send_files_keeps P i st3) as (Hr4 & Ht4 & Hre4 & more & Hl4 & Hq).
    specialize (IH (send_files P i st3)). cbn zeta in IH.
    destruct IH as (I1 & I2 & I3 & I4 & I5); [by rewrite Hr4|by rewrite Ht4|].
    split; [done|]. split; [done|]. split; [done|].
    split; [by rewrite I4, Hre4|].
    intros e He. destruct (I5 e He) as [Hin|Hput]; [|by right].
    rewrite Hl4 in Hin. apply elem_of_app in Hin as [Hin|Hin].
    + left. by rewrite <- Hl0.
    + right. by apply Hq.
Qed.

Lemma C4_pause_with_open_door_never_stops_witness :
  let inputs := [Samples.pass 1700000000 true true Samples.growing;
                 Samples.pass 1700000008 true true Samples.growing;
                 Samples.pass 1700000016 true true Samples.growing;
                 Samples.pass 1700000600 true true Samples.growing] in
  let r := run Samples.plain Samples.settings inputs Samples.in_session in
  r.1 = true
  ∧ recording r.2 = true
  ∧ door_closed_timer r.2 = 0
  ∧ recorder_ r.2 = recorder_ Samples.in_session
  ∧ ∀ e, e ∈ log r.2 → e ∈ log Samples.in_session ∨ ∃ s, e = EvQueuePut s.
Proof.
  apply (C4_pause_with_open_door_never_stops Samples.plain Samples.settings
           [Samples.pass 1700000000 true true Samples.growing;
            Samples.pass 1700000008 true true Samples.growing;
            Samples.pass 1700000016 true true Samples.growing;
            Samples.pass 1700000600 true true Samples.growing]
           Samples.in_session).
  - reflexivity.
  - reflexivity.
  - repeat constructor; vm_compute; discriminate.
Defined.

End LoopClaims.

Section LoopScenarios.
Import Main.

(** X26: the grace timer is cancelled by a pass that finds the sensor open
    again with no pause requested: the session goes on, nothing is switched
    or stopped. *)
Lemma reopen_cancels_timer P cfg i st :
  recording st = true → door_opened i = true → pause_requested i = false →
  let r := tick P cfg i st in
  r.1 = true
  ∧ recording r.2 = true
  ∧ door_closed_timer r.2 = 0
  ∧ recorder_ r.2 = recorder_ st
  ∧ ∀ e, e ∈ log r.2 → e ∈ log st ∨ ∃ s, e = EvQueuePut s.
Proof.
  intros Hrec Hdoor Hpause. cbn zeta. unfold tick.
  destruct (pause_edge_keeps i st) as (Hr0 & Ht0 & Hre0 & Hl0).
  set (st0 := pause_edge i st) in *.
  unfold start_pass. rewrite Hr0, Hrec, andb_false_r.
  unfold stop_pass. rewrite Hr0, Hrec, Hdoor, Hpause. cbn [negb orb andb].
  destruct (send_files_keeps P i (cancel_pass i st0))
    as (Hr4 & Ht4 & Hre4 & more & Hl4 & Hq).
  destruct (cancel_pass_keeps i st0) as (Hr3 & Hre3 & Hl3).
  cbn [fst snd]. split; [done|]. split; [by rewrite Hr4, Hr3, Hr0|].
  split.
  - rewrite Ht4. unfold cancel_pass. rewrite Hdoor, Hr0, Hrec. cbn [andb].
    destruct (Z.eqb_spec (door_closed_timer st0) 0); done.
  - split; [by rewrite Hre4, Hre3|].
    intros e He. rewrite Hl4, Hl3, Hl0 in He.
    apply elem_of_app in He as [He|He]; [by left|right; by apply Hq].
Qed.

End LoopScenarios.

(* ===================================================================== *)
(** * Evaluations on concrete inputs *)
(* ===================================================================== *)

Section Evaluations.

Example startswith_video :
  startswith "video_" "video_rec/1/000.mp4" = true
  ∧ drop_prefix 6 "video_rec/1/000.mp4" = "rec/1/000.mp4"
  ∧ startswith "text_" "video_rec/1/000.mp4" = false.
Proof. by vm_compute. Qed.

Example watchdog_sees_marker :
  Recorder.watchdog [None; Some ""; Some "Stream #0:0"; Some "frame=   12 fps"]
  = true
  ∧ Recorder.watchdog [None; Some "ffmpeg version 6.0"; None] = false.
Proof. by vm_compute. Qed.

Example stop_of_a_stubborn_process :
  Recorder.stop_events (Recorder.stop Samples.stubborn false Samples.busy)
  = [Recorder.EvTerminate;
     Recorder.EvTerminate; Recorder.EvSleep;
     Recorder.EvTerminate; Recorder.EvSleep;
     Recorder.EvTerminate; Recorder.EvSleep;
     Recorder.EvTerminate; Recorder.EvSleep;
     Recorder.EvSleep; Recorder.EvKill;
     Recorder.EvHardKill; Recorder.EvSleep;
     Recorder.EvHardKill; Recorder.EvSleep;
     Recorder.EvHardKill; Recorder.EvSleep;
     Recorder.EvSleep; Recorder.EvSleep].
Proof. by vm_compute. Qed.

Example second_launch_succeeds :
  let o := Recorder.start "rec/1" [Samples.silent 1; Samples.lively 2]
             Recorder.init in
  Recorder.start_result_of o = Recorder.Started "rec/1"
  ∧ Recorder.launches (Recorder.start_events o) = 2%nat
  ∧ Recorder.attempts (Recorder.start_recorder o) = 0%nat
  ∧ Recorder.recording (Recorder.start_recorder o) = true.
Proof. by vm_compute. Qed.

Example id_collision_is_redrawn :
  BotHandler.generate_video_id [λ _, 0%nat; λ j, j] None
    {[ "AAAAAAAAAAAA" := BotHandler.mkVideoRecord "rec/0/000.mp4" [] ]}
  = Some "ABCDEFGHIJKL".
Proof. by vm_compute. Qed.

Example three_other_errors_abandon :
  let o := BotHandler.send_text_or_video false 1001 "door opened" None
             [BotHandler.Attempt BotHandler.OtherError;
              BotHandler.Attempt (BotHandler.Sent (-1));
              BotHandler.Attempt BotHandler.OtherError;
              BotHandler.Attempt (BotHandler.Sent 9)] ∅ in
  BotHandler.send_exit_of o = BotHandler.Abandoned
  ∧ BotHandler.send_attempts (BotHandler.send_events o) = 3%nat.
Proof. by vm_compute. Qed.

Example listing_is_sorted :
  Main.unsent Samples.finished [] = ["000.mp4"; "001.mp4"; "002.mp4"]
  ∧ Main.unsent Samples.finished ["000.mp4"] = ["001.mp4"; "002.mp4"].
Proof. by vm_compute. Qed.

Example files_after_the_session :
  let i := Samples.pass 1700000000 false false Samples.finished in
  let st := Main.drain Samples.plain i 3 Samples.after_session in
  Main.queue_puts (Main.log st) = ["video_rec/1/000.mp4"; "video_rec/1/001.mp4"]
  ∧ Main.files_sent st = ["000.mp4"; "001.mp4"; "002.mp4"]
  ∧ Main.output_dir st = None.
Proof. by vm_compute. Qed.

Example files_during_the_session :
  let take ls := Main.send_files Samples.plain
                   (Samples.pass 1700000000 true false ls)
                   Samples.in_session in
  take Samples.growing = Samples.in_session
  ∧ Main.files_sent (take Samples.finished) = ["000.mp4"]
  ∧ Main.queue_puts (Main.log (take Samples.finished))
    = ["video_rec/1/000.mp4"]
  ∧ Main.output_dir (take Samples.finished) = Some "rec/1".
Proof. by vm_compute. Qed.

Example sensor_event_starts_a_session :
  let r := Main.tick Samples.plain Samples.settings
             (Samples.pass 1700000000 true false []) Samples.after_session in
  r.1 = true
  ∧ Main.recording r.2 = true
  ∧ Main.output_dir r.2 = Some "rec/1"
  ∧ Main.log r.2
    = [Main.EvCounterWrite 1700000000 5;
       Main.EvQueuePut
         ("text_door opened" +:+ Main.newline +:+ Main.newline
          +:+ "running since" +:+ Main.newline +:+ "events today");
       Main.EvLight true; Main.EvStartCalled;
       Main.EvRecorder (Recorder.EvLaunch 41)].
Proof. by vm_compute. Qed.

End Evaluations.

(* ===================================================================== *)
(** * Further properties of the recorder *)
(* ===================================================================== *)

Section RecorderSignals.
Import Recorder.

Lemma count_cons (f : event → bool) e l :
  length (filter (λ e, f e = true) (e :: l))
  = ((if f e then 1 else 0) + length (filter (λ e, f e = true) l))%nat.
Proof.
  rewrite filter_cons. destruct (f e); case_decide; simpl; congruence.
Qed.

Lemma count_app (f : event → bool) l1 l2 :
  length (filter (λ e, f e = true) (l1 ++ l2))
  = (length (filter (λ e, f e = true) l1)
     + length (filter (λ e, f e = true) l2))%nat.
Proof. by rewrite filter_app, length_app. Qed.

Lemma count_nil (f : event → bool) :
  length (filter (λ e, f e = true) []) = 0%nat.
Proof. reflexivity. Qed.

Ltac counters :=
  cbn [fst snd];
  unfold terminates, kills, hard_kills, launches in *;
  repeat (rewrite count_app || rewrite count_cons || rewrite count_nil);
  cbn [is_terminate is_kill is_hard_kill is_launch].

Lemma sleeps_silent n :
  terminates (repeat EvSleep n) = 0%nat ∧ kills (repeat EvSleep n) = 0%nat.
Proof.
  induction n as [|n [IHt IHk]]; [done|]. cbn [repeat].
  unfold terminates, kills in *. rewrite !count_cons, IHt, IHk. done.
Qed.

Lemma terminate_rounds_counts env i n :
  (terminates (terminate_rounds env i n) ≤ n)%nat
  ∧ kills (terminate_rounds env i n) = 0%nat.
Proof.
  revert i. induction n as [|n IH]; intros i; cbn [terminate_rounds].
  - counters. lia.
  - destruct (alive_in_round env i); [|counters; lia].
    destruct (terminate_in_round env i); [|counters; lia].
    destruct (IH (S i)) as [IHt IHk]. unfold terminates, kills in *.
    rewrite !count_cons, IHk. cbn [is_terminate is_kill]. lia.
Qed.

Lemma hard_kill_rounds_counts env i n :
  terminates (hard_kill_rounds env i n).1 = 0%nat
  ∧ kills (hard_kill_rounds env i n).1 = 0%nat.
Proof.
  revert i. induction n as [|n IH]; intros i; cbn [hard_kill_rounds].
  - done.
  - destruct (killer env i); [|done..].
    specialize (IH (S i)). destruct (hard_kill_rounds env (S i) n) as [evs ok].
    cbn [fst] in *. destruct IH as [IHt IHk]. unfold terminates, kills in *.
    rewrite !count_cons, IHt, IHk. done.
Qed.

(** The signals of the graceful block: at most one [terminate()] plus one
    per round, and one [kill()] exactly when the wait timed out and the
    process is still alive after the rounds. *)
Lemma graceful_counts env :
  (terminates (graceful env).1 ≤ 1 + TERMINATE_ROUNDS)%nat
  ∧ kills (graceful env).1 = (if kill_is_due env then 1 else 0)%nat.
Proof.
  unfold graceful, kill_is_due.
  destruct (terminate_rounds_counts env 0 TERMINATE_ROUNDS) as [Ht Hk].
  destruct (alive_at_stop env); [|split; [counters; lia|done]].
  destruct (first_terminate env); [|split; [counters; lia|done]].
  destruct (graceful_wait env); [split; [counters; lia|done]|
                                 |split; [counters; lia|done]].
  destruct (alive_after_rounds env); [destruct (kill_call env)|];
    cbn [fst andb]; unfold terminates, kills in *;
    rewrite !count_cons, !count_app, ?count_cons, ?count_nil, Hk;
    cbn [is_terminate is_kill]; (split; [lia|done]).
Qed.

(** X1: whatever the process and the kill command do, one [stop()] call
    sends at most five [terminate()] signals, at most one [kill()] and at
    most three hard-kill commands. *)
Theorem stop_signal_bounds env from_self r :
  let log := stop_events (stop env from_self r) in
  (terminates log ≤ 1 + TERMINATE_ROUNDS)%nat
  ∧ (kills log ≤ 1)%nat
  ∧ (hard_kills log ≤ HARD_KILL_ROUNDS)%nat.
Proof.
  cbn zeta. unfold stop. destruct (process r) as [pid|]; [|cbn; lia].
  destruct (graceful_counts env) as [Gt Gk].
  destruct (graceful_quiet env) as [Gh _].
  destruct (hard_kill_rounds_counts env 0 HARD_KILL_ROUNDS) as [Ht Hk].
  pose proof (hard_kill_rounds_bound env 0 HARD_KILL_ROUNDS) as Hh.
  assert (kills (graceful env).1 ≤ 1)%nat as Gk'.
  { rewrite Gk. destruct (kill_is_due env); lia. }
  clear Gk.
  destruct (graceful env) as [evs1 ok1].
  destruct (hard_kill_rounds env 0 HARD_KILL_ROUNDS) as [evs2 ok2].
  cbn [fst] in *. destruct ok1; [|cbn [stop_events]; lia].
  destruct ok2; [|cbn [stop_events]; unfold terminates, kills, hard_kills in *;
                  rewrite !count_app; lia].
  destruct (exit_poll env) as [n|]; cbn [stop_events].
  - destruct (sleeps_silent n) as [St Sk]. destruct (sleeps_quiet n) as [Sh _].
    unfold terminates, kills, hard_kills in *. rewrite !count_app. lia.
  - unfold terminates, kills, hard_kills in *. rewrite !count_app. lia.
Qed.

(** X2: [kill()] is the last resort: a [stop()] call sends it (once) exactly
    when it holds a handle, the process was alive, the first [terminate()]
    went through, the wait timed out and the process is still alive after
    the repeated [terminate()] rounds; in every other case it is not sent. *)
Theorem stop_kills_only_after_timeout env from_self r :
  kills (stop_events (stop env from_self r))
  = match process r with
    | Some _ => if kill_is_due env then 1%nat else 0%nat
    | None => 0%nat
    end.
Proof.
  unfold stop. destruct (process r) as [pid|]; [|done].
  destruct (graceful_counts env) as [_ Gk].
  destruct (hard_kill_rounds_counts env 0 HARD_KILL_ROUNDS) as [_ Hk].
  destruct (graceful env) as [evs1 ok1].
  destruct (hard_kill_rounds env 0 HARD_KILL_ROUNDS) as [evs2 ok2].
  cbn [fst] in *. rewrite <- Gk. destruct ok1; [|done].
  destruct ok2; [|cbn [stop_events]; unfold kills in *;
                  rewrite count_app, Hk; lia].
  destruct (exit_poll env) as [n|]; cbn [stop_events].
  - destruct (sleeps_silent n) as [_ Sk]. unfold kills in *.
    rewrite !count_app, Hk, Sk. lia.
  - unfold kills in *. rewrite !count_app, Hk. lia.
Qed.

(** X3: a [stop()] call that finds a handle and in which nothing raises and
    the process reports exited returns with the handle dropped, the
    recording flag off and capture disabled; the attempt counter is 0 unless
    the call came from [start] itself. A further [stop()] then does nothing. *)
Theorem stop_clears_the_session env from_self r pid n env' from_self' :
  process r = Some pid →
  kill_call env = Returns →
  (∀ i, (i < HARD_KILL_ROUNDS)%nat → killer env i = KillerDone) →
  exit_poll env = Some n →
  let o := stop env from_self r in
  stop_status_of o = StopReturned
  ∧ stop_recorder o
    = {| recording := false;
         attempts := if from_self then attempts r else 0%nat;
         process := None; capture_enabled := false |}
  ∧ stop env' from_self' (stop_recorder o)
    = mkStopOutcome StopReturned (stop_recorder o) [].
Proof.
  intros Hp Hkill Hkiller Hexit. cbn zeta.
  assert (∃ evs, stop env from_self r
                 = mkStopOutcome StopReturned
                     {| recording := false;
                        attempts := if from_self then attempts r else 0%nat;
                        process := None; capture_enabled := false |} evs)
    as [evs ->].
  { unfold stop. rewrite Hp.
    pose proof (graceful_completes env Hkill) as Hok.
    destruct (hard_kill_rounds_all env 0 HARD_KILL_ROUNDS) as [_ Hok2].
    { intros j Hj. apply Hkiller. lia. }
    destruct (graceful env) as [evs1 ok1].
    destruct (hard_kill_rounds env 0 HARD_KILL_ROUNDS) as [evs2 ok2].
    cbn [snd] in *. subst ok1 ok2. rewrite Hexit.
    eexists. by destruct from_self. }
  cbn [stop_status_of stop_recorder]. done.
Qed.

Lemma stop_clears_the_session_witness :
  let o := stop Samples.stubborn false Samples.busy in
  stop_status_of o = StopReturned
  ∧ stop_recorder o
    = {| recording := false; attempts := 0%nat;
         process := None; capture_enabled := false |}
  ∧ stop Samples.obedient true (stop_recorder o)
    = mkStopOutcome StopReturned (stop_recorder o) [].
Proof.
  apply (stop_clears_the_session Samples.stubborn false Samples.busy 41 2
           Samples.obedient true).
  - reflexivity.
  - reflexivity.
  - intros i _. reflexivity.
  - reflexivity.
Defined.

(** [stop()] leaves the recording flag of a recorder that is not recording
    off. *)
Lemma stop_keeps_flag_off env from_self r :
  recording r = false →
  recording (stop_recorder (stop env from_self r)) = false.
Proof.
  intros Hrec. unfold stop. destruct (process r) as [pid|]; [|done].
  destruct (graceful env) as [evs1 []];
    [destruct (hard_kill_rounds env 0 HARD_KILL_ROUNDS) as [evs2 []];
     [destruct (exit_poll env)|]|];
    destruct from_self; done.
Qed.

(** X4: on every path, also those left by an exception or never left,
    [stop()] does not turn the recording flag on, does not put another
    handle in place, and touches the attempt counter only by resetting it
    when a handle is held and the call does not come from [start]. *)
Theorem stop_only_winds_down env from_self r :
  let r' := stop_recorder (stop env from_self r) in
  (recording r' = true → recording r = true)
  ∧ (process r' = None ∨ process r' = process r)
  ∧ attempts r'
    = (if from_self then attempts r
       else match process r with Some _ => 0%nat | None => attempts r end).
Proof.
  cbn zeta. unfold stop. destruct (process r) as [pid|] eqn:Hp.
  - destruct (graceful env) as [evs1 []];
      [destruct (hard_kill_rounds env 0 HARD_KILL_ROUNDS) as [evs2 []];
       [destruct (exit_poll env)|]|];
      destruct from_self;
      cbn [stop_recorder set_capture set_attempts recording process attempts];
      rewrite ?Hp; repeat split; auto; done.
  - cbn [stop_recorder]. rewrite Hp. destruct from_self; auto.
Qed.

End RecorderSignals.

Section RecorderStart.
Import Recorder.

(** X6: for a recorder that is not recording, [start] returns a directory
    exactly when it leaves the recording flag on. The directory is the one
    derived from the event time, the attempt counter is back at 0, and the
    handle kept is that of a launch on which the watchdog saw the marker. On
    every other outcome the recording flag is off. *)
Theorem start_result_and_flag dir script r :
  recording r = false →
  let o := start dir script r in
  match start_result_of o with
  | Started d =>
      d = dir
      ∧ recording (start_recorder o) = true
      ∧ attempts (start_recorder o) = 0%nat
      ∧ ∃ pid reads env,
          Running pid reads env ∈ script
          ∧ watchdog reads = true
          ∧ process (start_recorder o) = Some pid
  | _ => recording (start_recorder o) = false
  end.
Proof.
  revert r. induction script as [|l script IH]; intros r Hrec; cbn zeta.
  - done.
  - cbn [start]. destruct l as [| |pid|pid reads env];
      cbn [start_result_of start_recorder set_attempts recording]; try done.
    destruct (watchdog reads) eqn:Hw.
    + cbn [start_result_of start_recorder recording attempts process].
      repeat split; try done. exists pid, reads, env.
      split; [by left|done].
    + set (r1 := {| recording := recording r; attempts := S (attempts r);
                    process := Some pid; capture_enabled := true |}).
      pose proof (stop_keeps_flag_off env true r1 Hrec) as Hoff.
      destruct (stop_status_of (stop env true r1));
        [|by cbn [start_result_of start_recorder]].
      destruct (START_ATTEMPTS <=? _)%nat.
      * by cbn [start_result_of start_recorder set_attempts recording].
      * specialize (IH _ Hoff). cbn zeta in IH.
        cbn [prepend start_result_of start_recorder].
        destruct (start_result_of
                    (start dir script (stop_recorder (stop env true r1))));
          try done.
        destruct IH as (H1 & H2 & H3 & p & rd & e & Hin & Hwd & Hp).
        repeat split; try done. exists p, rd, e. split; [by right|done].
Qed.

Lemma start_result_and_flag_witness :
  let o := start "rec/1" [Samples.silent 1; Samples.lively 2] init in
  match start_result_of o with
  | Started d =>
      d = "rec/1"
      ∧ recording (start_recorder o) = true
      ∧ attempts (start_recorder o) = 0%nat
      ∧ ∃ pid reads env,
          Running pid reads env ∈ [Samples.silent 1; Samples.lively 2]
          ∧ watchdog reads = true
          ∧ process (start_recorder o) = Some pid
  | _ => recording (start_recorder o) = false
  end.
Proof.
  apply (start_result_and_flag "rec/1" [Samples.silent 1; Samples.lively 2]
           init).
  reflexivity.
Defined.

Lemma contains_nonempty needle hay :
  str_truthy needle = true → contains needle hay = true →
  str_truthy hay = true.
Proof. destruct needle; [done|]. by destruct hay. Qed.

(** X7: the watchdog reports a started recording exactly when one of the
    lines it read inside the start timeout contains [frame=]; empty reads
    and other lines are passed over, whatever their number and order. *)
Theorem watchdog_spec reads :
  watchdog reads = true
  ↔ ∃ line, Some line ∈ reads ∧ contains "frame=" line = true.
Proof.
  induction reads as [|[line|] reads IH]; cbn [watchdog].
  - split; [done|]. by intros (line & Hin%elem_of_nil & _).
  - destruct (contains "frame=" line) eqn:Hc.
    + rewrite (contains_nonempty "frame=" line eq_refl Hc). cbn [negb orb].
      split; [|done]. intros _. exists line. split; [by left|done].
    + rewrite orb_true_r, IH. split.
      * intros (l & Hin & Hl). exists l. split; [by right|done].
      * intros (l & Hin & Hl). apply elem_of_cons in Hin as [[= ->]|Hin];
          [congruence|]. by exists l.
  - rewrite IH. split.
    + intros (l & Hin & Hl). exists l. split; [by right|done].
    + intros (l & Hin & Hl). apply elem_of_cons in Hin as [?|Hin]; [done|].
      by exists l.
Qed.

End RecorderStart.

Section CommandTemplate.
Import Recorder.

Lemma startswith_refl_app old rest : startswith old (old +:+ rest) = true.
Proof.
  induction old as [|c old IH]; [done|].
  change (String c old +:+ rest) with (String c (old +:+ rest)).
  cbn [startswith]. by rewrite Ascii.eqb_refl.
Qed.

Lemma replace_from_skip old new p rest :
  replace_from old new (String.length p) (p +:+ rest)
  = replace_from old new 0 rest.
Proof.
  induction p as [|c p IH]; [done|].
  change (String c p +:+ rest) with (String c (p +:+ rest)).
  cbn [String.length replace_from]. apply IH.
Qed.

(** A token without an occurrence is returned as it is. *)
Lemma replace_absent old new s :
  contains old s = false → replace old new s = s.
Proof.
  unfold replace. induction s as [|c s IH]; [done|]. cbn [contains].
  intros [Hs Hc]%orb_false_iff. cbn [replace_from]. rewrite Hs.
  by rewrite IH.
Qed.

(** An occurrence at the head is replaced, and the scan goes on behind it. *)
Lemma replace_at_head old new rest :
  str_truthy old = true →
  replace old new (old +:+ rest) = new +:+ replace old new rest.
Proof.
  destruct old as [|c p]; [done|]. intros _. unfold replace.
  change (String c p +:+ rest) with (String c (p +:+ rest)).
  cbn [replace_from].
  change (String c (p +:+ rest)) with (String c p +:+ rest).
  rewrite startswith_refl_app. cbn [String.length].
  rewrite Nat.sub_succ, Nat.sub_0_r. by rewrite replace_from_skip.
Qed.

(** Characters that differ from the first character of [old] are copied. *)
Lemma replace_past_prefix c p new pre s :
  Forall (λ ch, ch ≠ c) (list_ascii_of_string pre) →
  replace (String c p) new (pre +:+ s) = pre +:+ replace (String c p) new s.
Proof.
  unfold replace. induction pre as [|x pre IH]; [done|].
  cbn [list_ascii_of_string]. intros [Hx Hpre]%Forall_cons.
  change (String x pre +:+ s) with (String x (pre +:+ s)).
  cbn [replace_from startswith].
  destruct (Ascii.eqb_spec c x) as [->|_]; [done|]. by rewrite IH.
Qed.

Lemma contains_in_the_middle old pre post :
  contains old (pre +:+ old +:+ post) = true.
Proof.
  induction pre as [|x pre IH].
  - change ("" +:+ old +:+ post) with (old +:+ post).
    pose proof (startswith_refl_app old post) as Hs.
    destruct (old +:+ post); cbn [contains]; by rewrite Hs.
  - change (String x pre +:+ old +:+ post)
      with (String x (pre +:+ old +:+ post)).
    cbn [contains]. rewrite IH. apply orb_true_r.
Qed.

(** X8: templating the capture command keeps the number and order of the
    tokens, leaves every token without the placeholder as it is, and turns a
    token [pre{output_dir}post] (no brace in [pre], no further placeholder
    in [post]) into [pre], the directory, [post]. *)
Theorem prepare_command_spec ffmpeg_command output_dir :
  length (prepare_command ffmpeg_command output_dir) = length ffmpeg_command
  ∧ (∀ i arg,
       ffmpeg_command !! i = Some arg → contains PLACEHOLDER arg = false →
       prepare_command ffmpeg_command output_dir !! i = Some arg)
  ∧ (∀ i pre post,
       ffmpeg_command !! i = Some (pre +:+ PLACEHOLDER +:+ post) →
       Forall (λ ch, ch ≠ "{"%char) (list_ascii_of_string pre) →
       contains PLACEHOLDER post = false →
       prepare_command ffmpeg_command output_dir !! i
       = Some (pre +:+ output_dir +:+ post)).
Proof.
  unfold prepare_command. split; [apply length_map|]. split.
  - intros i arg Hi Hc. rewrite list_lookup_fmap, Hi. cbn. by rewrite Hc.
  - intros i pre post Hi Hpre Hpost. rewrite list_lookup_fmap, Hi. cbn.
    rewrite contains_in_the_middle. f_equal.
    unfold PLACEHOLDER in *.
    rewrite (replace_past_prefix "{" "output_dir}" output_dir pre _ Hpre).
    rewrite replace_at_head by done. by rewrite replace_absent.
Qed.

Example command_for_a_session :
  prepare_command
    ["ffmpeg"; "-i"; "/dev/video0"; "-f"; "segment"; "{output_dir}/%03d.mp4"]
    "rec/2024_01_01"
  = ["ffmpeg"; "-i"; "/dev/video0"; "-f"; "segment";
     "rec/2024_01_01/%03d.mp4"].
Proof. by vm_compute. Qed.

End CommandTemplate.

(* ===================================================================== *)
(** * Properties of the keyboards and button presses *)
(* ===================================================================== *)

Section Keyboards.
Import BotHandler.

(** Cutting a list into slices of [n] from the left gives back a prefix. *)
Lemma slices_concat {A} (l : list A) n m :
  concat (map (λ k, take n (drop (k * n) l)) (seq 0 m)) = take (m * n) l.
Proof.
  induction m as [|m IH]; [done|].
  rewrite seq_S, map_app, concat_app, IH. cbn [map concat plus].
  rewrite app_nil_r, take_take_drop. f_equal. lia.
Qed.

Lemma rounded_up_covers len n :
  (0 < n)%nat → (len ≤ (len + n - 1) / n * n)%nat.
Proof.
  intros Hn. pose proof (Nat.div_mod_eq (len + n - 1) n) as Hd.
  pose proof (Nat.mod_upper_bound (len + n - 1) n ltac:(lia)) as Hm. nia.
Qed.

Lemma rounded_up_is_tight len n k :
  (0 < n)%nat → (k < (len + n - 1) / n)%nat → (k * n < len)%nat.
Proof.
  intros Hn Hk. pose proof (Nat.div_mod_eq (len + n - 1) n) as Hd.
  pose proof (Nat.mod_upper_bound (len + n - 1) n ltac:(lia)) as Hm. nia.
Qed.

(** X9: [build_menu] raises only for [n_cols = 0]. For a positive [n_cols]
    the rows between the header row and the footer row, read from left to
    right and top to bottom, are the buttons given in their order without
    the [None] entries; no row is empty or longer than [n_cols], and there
    are as many rows as the button count divided by [n_cols], rounded up. A
    negative [n_cols] gives no button row at all. *)
Theorem build_menu_rows {A} (buttons : list (option A)) n_cols header footer :
  match build_menu buttons n_cols header footer with
  | None => n_cols = 0
  | Some menu =>
      n_cols ≠ 0
      ∧ ∃ body,
          menu = menu_row header ++ body ++ menu_row footer
          ∧ (n_cols < 0 → body = [])
          ∧ (0 < n_cols →
               concat body = omap id buttons
               ∧ Forall (λ row, (0 < length row ≤ Z.to_nat n_cols)%nat) body
               ∧ length body
                 = ((length (omap id buttons) + Z.to_nat n_cols - 1)
                    / Z.to_nat n_cols)%nat)
  end.
Proof.
  unfold build_menu. destruct (Z.eqb_spec n_cols 0) as [->|Hne]; [done|].
  split; [done|]. eexists. split; [reflexivity|].
  destruct (Z.ltb_spec n_cols 0) as [Hneg|Hpos]; [split; [done|lia]|].
  split; [lia|]. intros _.
  set (l := omap id buttons). set (n := Z.to_nat n_cols).
  assert (0 < n)%nat as Hn by lia.
  split; [|split].
  - rewrite slices_concat. apply take_ge. by apply rounded_up_covers.
  - apply Forall_forall. intros row Hrow. apply list_elem_of_In in Hrow.
    apply in_map_iff in Hrow as (k & <- & Hk). apply in_seq in Hk.
    pose proof (rounded_up_is_tight (length l) n k Hn ltac:(lia)) as Hlt.
    rewrite length_take, length_drop. lia.
  - by rewrite length_map, length_seq.
Qed.

(** X10: the [callback_data] attached to a button is read back as the same
    action on the same video id, whatever the id is. *)
Theorem callback_round_trip a video_id :
  parse_callback (callback_data a video_id) = Some (a, video_id).
Proof. by destruct a. Qed.

End Keyboards.

Section ButtonPresses.
Import BotHandler.

Lemma callback_data_truthy a video_id :
  str_truthy (callback_data a video_id) = true.
Proof. by destruct a. Qed.

(** X11: for a whitelisted chat and a video that is in the database, pressing
    the delete button replaces the keyboard by one row with the buttons No
    and Yes, which carry the keep and the delete command for the same video
    id; pressing No restores the single delete button, which carries the ask
    command for that id. Neither press changes a flag, removes a file or
    writes the database. *)
Theorem confirm_keyboard cfg tx env chat_id message_id video_id rec st :
  chat_id ∈ users_whitelist_text cfg →
  cb_loaded env !! video_id = Some rec →
  let press a := query_callback cfg tx env
                   (mkUpdate (Some chat_id) (Some message_id)
                      (Some (callback_data a video_id))) st in
  press Ask
  = mkCallbackOutcome true st
      [UiEditCaption chat_id message_id
         (are_you_sure_text tx (basename tx (path rec)))
         (Some [[(no_btn_text tx, callback_data Keep video_id);
                 (yes_btn_text tx, callback_data Delete video_id)]])]
  ∧ press Keep
    = mkCallbackOutcome true st
        [UiEditCaption chat_id message_id (basename tx (path rec))
           (Some [[(delete_local_file_btn_text tx,
                    callback_data Ask video_id)]])].
Proof.
  intros Hw Hdb. cbn zeta. unfold query_callback.
  cbn [effective_chat effective_message query_data].
  assert (∀ a, parse_callback (callback_data a video_id) = Some (a, video_id))
    as Hparse by (by intros []).
  rewrite !callback_data_truthy, !Hparse, Hdb.
  rewrite bool_decide_true by done. done.
Qed.

Lemma confirm_keyboard_witness :
  let press a := query_callback Samples.recipients Samples.wording Samples.disk
                   (mkUpdate (Some 1002) (Some 71)
                      (Some (callback_data a "ABCDEFGHIJKL"))) Samples.calm in
  press Ask
  = mkCallbackOutcome true Samples.calm
      [UiEditCaption 1002 71
         (are_you_sure_text Samples.wording
            (basename Samples.wording
               (path (mkVideoRecord "rec/1/000.mp4" [(1001, 70); (1002, 71)]))))
         (Some [[(no_btn_text Samples.wording,
                  callback_data Keep "ABCDEFGHIJKL");
                 (yes_btn_text Samples.wording,
                  callback_data Delete "ABCDEFGHIJKL")]])]
  ∧ press Keep
    = mkCallbackOutcome true Samples.calm
        [UiEditCaption 1002 71
           (basename Samples.wording
              (path (mkVideoRecord "rec/1/000.mp4" [(1001, 70); (1002, 71)])))
           (Some [[(delete_local_file_btn_text Samples.wording,
                    callback_data Ask "ABCDEFGHIJKL")]])].
Proof.
  apply (confirm_keyboard Samples.recipients Samples.wording Samples.disk
           1002 71 "ABCDEFGHIJKL"
           (mkVideoRecord "rec/1/000.mp4" [(1001, 70); (1002, 71)])
           Samples.calm).
  - vm_compute. set_solver.
  - reflexivity.
Defined.

Lemma removals_app l1 l2 : removals (l1 ++ l2) = removals l1 ++ removals l2.
Proof.
  induction l1 as [|e l1 IH]; [done|]. destruct e; cbn; by rewrite ?IH.
Qed.

Lemma send_deleted_removes_nothing tx reloaded video_id chat_id message_id :
  removals (send_deleted tx reloaded video_id chat_id message_id) = [].
Proof.
  unfold send_deleted. cbn [removals].
  destruct (reloaded !! video_id) as [rec|]; [|done].
  rewrite removals_app. cbn. rewrite app_nil_r.
  induction (messages rec) as [|[c m] l IH]; [done|]. cbn [flat_map].
  rewrite removals_app, IH. by case_decide.
Qed.

(** X12: the handler removes a file only on a delete command that comes from
    a whitelisted chat and names a video id of the database, and the file is
    the one recorded for that id; the ask and keep commands, unknown
    commands, strangers and ids that are no longer in the database never
    lead to a removal. *)
Theorem removal_needs_confirmed_delete cfg tx env upd st filepath :
  filepath ∈ removals (cb_events (query_callback cfg tx env upd st)) →
  ∃ chat_id data video_id rec,
    effective_chat upd = Some chat_id
    ∧ chat_id ∈ users_whitelist_text cfg
    ∧ query_data upd = Some data
    ∧ parse_callback data = Some (Delete, video_id)
    ∧ cb_loaded env !! video_id = Some rec
    ∧ filepath = path rec
    ∧ file_exists env = true.
Proof.
  unfold query_callback.
  destruct (effective_chat upd) as [chat_id|]; [|by intros ?%elem_of_nil].
  destruct (effective_message upd) as [message_id|];
    [|by intros ?%elem_of_nil].
  destruct (query_data upd) as [data|]; [|by intros ?%elem_of_nil].
  destruct (str_truthy data); [|by intros ?%elem_of_nil]. cbn [negb].
  case_bool_decide as Hw; [|by intros ?%elem_of_nil]. cbn [negb].
  destruct (parse_callback data) as [[a video_id]|] eqn:Hparse;
    [|by intros ?%elem_of_nil].
  destruct (cb_loaded env !! video_id) as [rec|] eqn:Hdb.
  - destruct a.
    + destruct (build_menu _ _ _ _); by intros ?%elem_of_nil.
    + destruct (build_menu _ _ _ _); by intros ?%elem_of_nil.
    + destruct (_ && _); [by intros ?%elem_of_nil|]. cbn [cb_events].
      destruct (file_exists env) eqn:Hf.
      * intros Hin. exists chat_id, data, video_id, rec.
        repeat split; try done.
        destruct (remove_returns env); cbn [removals] in Hin;
          rewrite ?send_deleted_removes_nothing in Hin;
          by apply list_elem_of_singleton in Hin.
      * rewrite send_deleted_removes_nothing. by intros ?%elem_of_nil.
  - cbn [cb_events]. rewrite send_deleted_removes_nothing.
    by intros ?%elem_of_nil.
Qed.

Lemma removal_needs_confirmed_delete_witness :
  ∃ chat_id data video_id rec,
    effective_chat (Samples.press "delete_ABCDEFGHIJKL") = Some chat_id
    ∧ chat_id ∈ users_whitelist_text Samples.recipients
    ∧ query_data (Samples.press "delete_ABCDEFGHIJKL") = Some data
    ∧ parse_callback data = Some (Delete, video_id)
    ∧ cb_loaded Samples.disk !! video_id = Some rec
    ∧ "rec/1/000.mp4" = path rec
    ∧ file_exists Samples.disk = true.
Proof.
  apply (removal_needs_confirmed_delete Samples.recipients Samples.wording
           Samples.disk (Samples.press "delete_ABCDEFGHIJKL") Samples.calm
           "rec/1/000.mp4").
  vm_compute. left.
Defined.

End ButtonPresses.

Section DeletedMarker.
Import BotHandler.

Lemma edited_app l1 l2 : edited (l1 ++ l2) = edited l1 ++ edited l2.
Proof.
  induction l1 as [|e l1 IH]; [done|]. destruct e; cbn; by rewrite ?IH.
Qed.

Lemma ui_dumps_app l1 l2 : ui_dumps (l1 ++ l2) = ui_dumps l1 ++ ui_dumps l2.
Proof.
  induction l1 as [|e l1 IH]; [done|]. destruct e; cbn; by rewrite ?IH.
Qed.

(** X13: [_send_deleted] edits the message under which the button was pressed
    first and then every other recorded copy of the video, each recorded
    pair once and the pressed message never a second time; when the id is in
    the database it dumps the database without that id, once and as its last
    step, and when the id is not in the database it edits the pressed message
    only and dumps nothing. *)
Theorem deleted_marker_reaches_every_copy tx reloaded video_id chat_id
    message_id :
  let log := send_deleted tx reloaded video_id chat_id message_id in
  edited log
  = (chat_id, message_id)
    :: match reloaded !! video_id with
       | Some rec => filter (λ p, p ≠ (chat_id, message_id)) (messages rec)
       | None => []
       end
  ∧ match reloaded !! video_id with
    | Some rec =>
        ∃ edits, log = edits ++ [UiWriteDb (delete video_id reloaded)]
                 ∧ ui_dumps edits = []
    | None => ui_dumps log = []
    end.
Proof.
  cbn zeta. unfold send_deleted. cbn [edited].
  destruct (reloaded !! video_id) as [rec|]; [|done].
  set (f := λ '(chat_id_, message_id_),
              if decide (chat_id_ ≠ chat_id ∨ message_id_ ≠ message_id)
              then [UiSleep;
                    UiEditCaption chat_id_ message_id_
                      (local_file_deleted_text tx) None]
              else []).
  assert (edited (flat_map f (messages rec))
          = filter (λ p, p ≠ (chat_id, message_id)) (messages rec)
          ∧ ui_dumps (flat_map f (messages rec)) = []) as [He Hd].
  { induction (messages rec) as [|[c m] l [IHe IHd]]; [done|].
    cbn [flat_map]. rewrite edited_app, ui_dumps_app, IHe, IHd.
    rewrite filter_cons. unfold f.
    destruct (decide (c ≠ chat_id ∨ m ≠ message_id)) as [Hne|Heq].
    - rewrite decide_True by (intros [= -> ->]; by destruct Hne). done.
    - rewrite decide_False; [done|]. intros Hp. apply Heq.
      destruct (decide (c = chat_id)) as [->|]; [|by left].
      destruct (decide (m = message_id)) as [->|]; [|by right]. done. }
  split.
  - f_equal. rewrite edited_app, He. cbn. by rewrite app_nil_r.
  - eexists (_ :: _). split; [reflexivity|]. cbn [ui_dumps]. done.
Qed.

End DeletedMarker.

Section Commands.
Import BotHandler.

Lemma messages_to_app c l1 l2 :
  messages_to c (l1 ++ l2) = messages_to c l1 ++ messages_to c l2.
Proof.
  induction l1 as [|e l1 IH]; [done|].
  destruct e; cbn; try case_decide; by rewrite ?IH.
Qed.

(** With a whitelist free of duplicates, the broadcast sends the text once
    to every chat of the whitelist and to the sender, and to nobody else. *)
Lemma notify_all_once cfg chat_id text c :
  NoDup (users_whitelist_text cfg) →
  messages_to c (notify_all cfg chat_id text)
  = if decide (c = chat_id ∨ c ∈ users_whitelist_text cfg)
    then [text] else [].
Proof.
  intros Hnd. unfold notify_all. cbn [messages_to].
  set (f := λ c0, if decide (c0 ≠ chat_id)
                  then [UiSleep; UiMessage c0 text] else []).
  assert (∀ l, NoDup l →
            messages_to c (flat_map f l)
            = if decide (c ∈ l ∧ c ≠ chat_id) then [text] else []) as Hflat.
  { induction l as [|x l IH]; intros Hl.
    - cbn. rewrite decide_False; [done|]. by intros [?%elem_of_nil _].
    - apply NoDup_cons in Hl as [Hx Hl]. cbn [flat_map].
      rewrite messages_to_app, (IH Hl). unfold f at 1.
      destruct (decide (x ≠ chat_id)) as [Hne|Heq]; cbn [messages_to].
      + destruct (decide (x = c)) as [->|Hxc].
        * rewrite decide_False by (by intros [? _]).
          rewrite decide_True; [done|]. split; [by left|done].
        * destruct (decide (c ∈ l ∧ c ≠ chat_id)) as [[Hin Hc]|Hno].
          -- rewrite decide_True; [done|]. split; [by right|done].
          -- rewrite decide_False; [done|]. intros [Hin Hc]. apply Hno.
             apply elem_of_cons in Hin as [->|Hin]; done.
      + assert (x = chat_id) as -> by (destruct (decide (x = chat_id)); tauto).
        destruct (decide (c ∈ l ∧ c ≠ chat_id)) as [[Hin Hc]|Hno].
        * rewrite decide_True; [done|]. split; [by right|done].
        * rewrite decide_False; [done|]. intros [Hin Hc]. apply Hno.
          apply elem_of_cons in Hin as [->|Hin]; done. }
  rewrite (Hflat _ Hnd).
  destruct (decide (chat_id = c)) as [->|Hne].
  - rewrite decide_False by (by intros [_ ?]).
    rewrite decide_True; [done|by left].
  - destruct (decide (c ∈ users_whitelist_text cfg ∧ c ≠ chat_id))
      as [[Hin Hc]|Hno].
    + rewrite decide_True; [done|by right].
    + rewrite decide_False; [done|]. intros [->|Hin]; [done|].
      apply Hno. split; [done|]. congruence.
Qed.

(** X14: a [/pause] or [/start] from a whitelisted chat sets, respectively
    clears, the pause flag and leaves the other flags alone; with a whitelist
    free of duplicates every whitelisted chat gets the confirmation text
    exactly once and no other chat gets anything. A [/start] after a
    [/pause] leaves the flags as they were before the pause. *)
Theorem pause_and_start_broadcast cfg tx chat_id st c :
  chat_id ∈ users_whitelist_text cfg →
  NoDup (users_whitelist_text cfg) →
  let p := command_pause cfg tx chat_id st in
  let s := command_start cfg tx chat_id p.1 in
  p.1 = mkHandlerState true (test_flag st) (deleting_in_progress st)
  ∧ s.1 = mkHandlerState false (test_flag st) (deleting_in_progress st)
  ∧ messages_to c p.2
    = (if decide (c ∈ users_whitelist_text cfg) then [pause_text tx] else [])
  ∧ messages_to c s.2
    = (if decide (c ∈ users_whitelist_text cfg) then [start_text tx] else []).
Proof.
  intros Hw Hnd. cbn zeta. unfold command_pause, command_start.
  rewrite !bool_decide_true by done. cbn [fst snd test_flag
    deleting_in_progress]. split; [done|]. split; [done|].
  rewrite !notify_all_once by done.
  assert (∀ t : string,
            (if decide (c = chat_id ∨ c ∈ users_whitelist_text cfg)
             then [t] else [])
            = (if decide (c ∈ users_whitelist_text cfg) then [t] else []))
    as Hsame.
  { intros t. destruct (decide (c ∈ users_whitelist_text cfg)).
    - by rewrite decide_True by (by right).
    - rewrite decide_False; [done|]. intros [->|?]; done. }
  by rewrite !Hsame.
Qed.

Lemma pause_and_start_broadcast_witness :
  let p := command_pause Samples.recipients Samples.wording 1002
             Samples.calm in
  let s := command_start Samples.recipients Samples.wording 1002 p.1 in
  p.1 = mkHandlerState true (test_flag Samples.calm)
          (deleting_in_progress Samples.calm)
  ∧ s.1 = mkHandlerState false (test_flag Samples.calm)
            (deleting_in_progress Samples.calm)
  ∧ messages_to 1003 p.2
    = (if decide (1003 ∈ users_whitelist_text Samples.recipients)
       then [pause_text Samples.wording] else [])
  ∧ messages_to 1003 s.2
    = (if decide (1003 ∈ users_whitelist_text Samples.recipients)
       then [start_text Samples.wording] else []).
Proof.
  apply (pause_and_start_broadcast Samples.recipients Samples.wording 1002
           Samples.calm 1003).
  - apply (bool_decide_unpack _). vm_compute. exact I.
  - apply (bool_decide_unpack _). vm_compute. exact I.
Defined.

(** X15: a chat that is not on the text whitelist changes no flag and causes
    no action through any command or button press: [/pause], [/test],
    [/reboot] and every button press do nothing at all, and [/start] only
    answers the sender with the refusal text. *)
Theorem strangers_change_nothing cfg tx chat_id st :
  chat_id ∉ users_whitelist_text cfg →
  command_start cfg tx chat_id st
  = (st, [UiMessage chat_id (start_text_not_in_whitelist tx chat_id)])
  ∧ command_pause cfg tx chat_id st = (st, [])
  ∧ command_test cfg chat_id st = (st, [])
  ∧ command_reboot cfg tx chat_id st = (st, [])
  ∧ ∀ env upd,
      effective_chat upd = Some chat_id →
      query_callback cfg tx env upd st = mkCallbackOutcome true st [].
Proof.
  intros Hw. unfold command_start, command_pause, command_test,
    command_reboot. rewrite !bool_decide_false by done.
  do 4 (split; [done|]). intros env upd Hc. unfold query_callback.
  rewrite Hc. destruct (effective_message upd); [|done].
  destruct (query_data upd) as [data|]; [|done].
  destruct (str_truthy data); [|done]. cbn [negb].
  by rewrite bool_decide_false by done.
Qed.

Lemma strangers_change_nothing_witness :
  command_start Samples.recipients Samples.wording 666 Samples.calm
  = (Samples.calm,
     [UiMessage 666 (start_text_not_in_whitelist Samples.wording 666)])
  ∧ command_pause Samples.recipients Samples.wording 666 Samples.calm
    = (Samples.calm, [])
  ∧ command_test Samples.recipients 666 Samples.calm = (Samples.calm, [])
  ∧ command_reboot Samples.recipients Samples.wording 666 Samples.calm
    = (Samples.calm, [])
  ∧ ∀ env upd,
      effective_chat upd = Some 666 →
      query_callback Samples.recipients Samples.wording env upd Samples.calm
      = mkCallbackOutcome true Samples.calm [].
Proof.
  apply (strangers_change_nothing Samples.recipients Samples.wording 666
           Samples.calm).
  apply (bool_decide_unpack _). vm_compute. exact I.
Defined.

End Commands.

(* ===================================================================== *)
(** * Further properties of the delivery queue *)
(* ===================================================================== *)

Section DeliveryOnce.
Import BotHandler.

Lemma successes_cons e l :
  successes (e :: l) = ((if is_success e then 1 else 0) + successes l)%nat.
Proof.
  unfold successes. rewrite filter_cons.
  destruct (is_success e); case_decide; simpl; congruence.
Qed.

Lemma successes_app l1 l2 :
  successes (l1 ++ l2) = (successes l1 + successes l2)%nat.
Proof. unfold successes. by rewrite filter_app, length_app. Qed.

Lemma send_loop_successes video user_id data video_id script tries msgs :
  let o := send_loop video user_id data video_id script tries msgs in
  successes (send_events o)
  = match send_exit_of o with Delivered => 1%nat | _ => 0%nat end.
Proof.
  revert tries. induction script as [|it script IH]; intros tries; cbn zeta.
  - done.
  - destruct it as [|r]; [done|]. cbn [send_loop].
    assert (∀ network : bool,
      is_success (EvSend video user_id data r) = false →
      let o :=
        if (SEND_FILE_TRIES_MAX <=? after_failure tries network)%nat
        then mkSendOutcome Abandoned msgs [EvSend video user_id data r]
        else
          let o' := send_loop video user_id data video_id script
                      (after_failure tries network) msgs in
          mkSendOutcome (send_exit_of o') (send_db o')
            (EvSend video user_id data r :: EvWait true :: send_events o') in
      successes (send_events o)
      = match send_exit_of o with Delivered => 1%nat | _ => 0%nat end)
      as Hfail.
    { intros network Hr. cbn zeta.
      destruct (SEND_FILE_TRIES_MAX <=? after_failure tries network)%nat;
        cbn [send_events send_exit_of]; rewrite !successes_cons, Hr.
      - done.
      - cbn [is_success]. apply IH. }
    destruct r as [m| |].
    + destruct (0 <=? m) eqn:Hm.
      * destruct video; [destruct (append_message _ _ _ _)|];
          cbn [send_events send_exit_of]; rewrite !successes_cons;
          cbn [is_success]; by rewrite Hm.
      * apply (Hfail false). cbn. done.
    + by apply (Hfail true).
    + by apply (Hfail false).
Qed.

(** X16: one call of [_send_text_or_video] delivers at most once: its log
    holds exactly one send that returned a message id >= 0 when the loop
    ended on a delivery, and none when the recipient was abandoned, the
    thread was stopped or the loop is still retrying. *)
Theorem delivered_at_most_once video user_id data video_id script msgs :
  let o := send_text_or_video video user_id data video_id script msgs in
  successes (send_events o)
  = match send_exit_of o with Delivered => 1%nat | _ => 0%nat end.
Proof.
  cbn zeta. unfold send_text_or_video.
  pose proof (send_loop_successes video user_id data video_id script 0 msgs)
    as H. cbn zeta in H.
  destruct (send_exit_of (send_loop video user_id data video_id script 0 msgs))
    eqn:E; cbn [send_events send_exit_of];
    rewrite ?successes_app, ?E, H; done.
Qed.

End DeliveryOnce.

Section DeliveryOrder.
Import BotHandler.

Lemma send_targets_app l1 l2 :
  send_targets (l1 ++ l2) = send_targets l1 ++ send_targets l2.
Proof.
  induction l1 as [|e l1 IH]; [done|]. destruct e; cbn; by rewrite ?IH.
Qed.

(** Every send of one call goes to the recipient of the call and carries the
    payload of the call. *)
Lemma send_loop_targets video user_id data video_id script tries msgs :
  let o := send_loop video user_id data video_id script tries msgs in
  (∃ n, send_targets (send_events o) = replicate n user_id)
  ∧ Forall (λ e, match e with
                 | EvSend v _ d _ => v = video ∧ d = data
                 | _ => True
                 end) (send_events o).
Proof.
  revert tries. induction script as [|it script IH]; intros tries; cbn zeta.
  - split; [by exists 0%nat|done].
  - destruct it as [|r]; [split; [by exists 0%nat|done]|]. cbn [send_loop].
    assert (∀ network : bool,
      let o :=
        if (SEND_FILE_TRIES_MAX <=? after_failure tries network)%nat
        then mkSendOutcome Abandoned msgs [EvSend video user_id data r]
        else
          let o' := send_loop video user_id data video_id script
                      (after_failure tries network) msgs in
          mkSendOutcome (send_exit_of o') (send_db o')
            (EvSend video user_id data r :: EvWait true :: send_events o') in
      (∃ n, send_targets (send_events o) = replicate n user_id)
      ∧ Forall (λ e, match e with
                     | EvSend v _ d _ => v = video ∧ d = data
                     | _ => True
                     end) (send_events o)) as Hfail.
    { intros network. cbn zeta.
      destruct (SEND_FILE_TRIES_MAX <=? after_failure tries network)%nat;
        cbn [send_events].
      - split; [by exists 1%nat|]. by repeat constructor.
      - destruct (IH (after_failure tries network)) as ((n & Hn) & Hall).
        split; [exists (S n); cbn; by rewrite Hn|]. by repeat constructor. }
    destruct r as [m| |]; [|apply (Hfail true)|apply (Hfail false)].
    destruct (0 <=? m); [|apply (Hfail false)].
    destruct video; [destruct (append_message _ _ _ _)|]; cbn [send_events];
      (split; [by exists 1%nat|by repeat constructor]).
Qed.

Lemma send_text_or_video_targets video user_id data video_id script msgs :
  let o := send_text_or_video video user_id data video_id script msgs in
  (∃ n, send_targets (send_events o) = replicate n user_id)
  ∧ Forall (λ e, match e with
                 | EvSend v _ d _ => v = video ∧ d = data
                 | _ => True
                 end) (send_events o).
Proof.
  cbn zeta. unfold send_text_or_video.
  destruct (send_loop_targets video user_id data video_id script 0 msgs)
    as ((n & Hn) & Hall). cbn zeta in *.
  destruct (send_exit_of _); cbn [send_events];
    rewrite ?send_targets_app, ?Hn; cbn [send_targets]; rewrite ?app_nil_r;
    (split; [by exists n|]); try done;
    apply Forall_app; split; try done; by repeat constructor.
Qed.

Lemma no_targets (users : list Z) :
  concat (zip_with (λ user n, replicate n user) users
            (replicate (length users) 0%nat)) = [].
Proof. induction users as [|u users IH]; [done|]. cbn. apply IH. Qed.

Lemma send_to_users_in_order video data video_id env i users msgs :
  let u := send_to_users video data video_id env i users msgs in
  (∃ counts,
     length counts = length users
     ∧ send_targets (users_events u)
       = concat (zip_with (λ user n, replicate n user) users counts))
  ∧ Forall (λ e, match e with
                 | EvSend v _ d _ => v = video ∧ d = data
                 | _ => True
                 end) (users_events u).
Proof.
  revert i msgs. induction users as [|user_id users IH]; intros i msgs;
    cbn zeta; cbn [send_to_users].
  - split; [by exists []|done].
  - destruct (flag_before_user env i).
    + destruct (send_text_or_video_targets video user_id data video_id
                  (user_script env i) msgs) as ((n & Hn) & Hall).
      cbn zeta in *.
      set (o := send_text_or_video video user_id data video_id
                  (user_script env i) msgs) in *.
      destruct (IH (S i) (send_db o)) as ((counts & Hlen & Hc) & Hall').
      cbn zeta in *.
      assert ((∃ counts0,
                 length counts0 = S (length users)
                 ∧ send_targets (send_events o)
                   = concat (zip_with (λ user n, replicate n user)
                               (user_id :: users) counts0))
              ∧ Forall (λ e, match e with
                             | EvSend v _ d _ => v = video ∧ d = data
                             | _ => True
                             end) (send_events o)) as Hstop.
      { split; [|done]. exists (n :: replicate (length users) 0%nat).
        split; [cbn; by rewrite length_replicate|].
        cbn [zip_with concat]. by rewrite no_targets, app_nil_r. }
      destruct (send_exit_of o); cbn [users_events length]; try exact Hstop.
      all: split; [|by apply Forall_app].
      all: exists (n :: counts); split; [cbn; by rewrite Hlen|].
      all: cbn [zip_with concat]; by rewrite send_targets_app, Hn, Hc.
    + split; [|done]. exists (replicate (length (user_id :: users)) 0%nat).
      split; [by rewrite length_replicate|].
      by rewrite (no_targets (user_id :: users)).
Qed.

(** X17: the sends of one job go to the recipients of the whitelist that
    belongs to the kind of the job, in the order of that list and one
    recipient at a time (all sends to one recipient come before the first
    send to the next), and each of them carries the job string without its
    prefix. *)
Theorem job_serves_recipients_in_order cfg env job :
  let j := process_job cfg env job in
  let video := startswith "video_" job in
  let users := if video then users_whitelist_video cfg
               else users_whitelist_text cfg in
  (∃ counts,
     length counts = length users
     ∧ send_targets (job_events j)
       = concat (zip_with (λ user n, replicate n user) users counts))
  ∧ Forall (λ e, match e with
                 | EvSend v _ d _ =>
                     v = video
                     ∧ d = drop_prefix (if video then 6 else 5) job
                 | _ => True
                 end) (job_events j).
Proof.
  cbn zeta. unfold process_job.
  destruct (startswith "video_" job).
  - destruct (generate_video_id (id_picks env) None (loaded env)) as [vid|].
    + cbn [job_events send_targets].
      destruct (send_to_users_in_order true (drop_prefix 6 job) (Some vid)
                  env 0 (users_whitelist_video cfg)
                  (<[vid := mkVideoRecord (drop_prefix 6 job) []]>
                     (loaded env))) as (Hc & Hall).
      split; [exact Hc|]. by constructor.
    + cbn [job_events send_targets]. split; [|done].
      exists (replicate (length (users_whitelist_video cfg)) 0%nat).
      split; [by rewrite length_replicate|]. by rewrite no_targets.
  - destruct (startswith "text_" job).
    + cbn [job_events].
      apply (send_to_users_in_order false (drop_prefix 5 job) None env 0
               (users_whitelist_text cfg) (loaded env)).
    + cbn [job_events send_targets]. split; [|done].
      exists (replicate (length (users_whitelist_text cfg)) 0%nat).
      split; [by rewrite length_replicate|]. by rewrite no_targets.
Qed.

End DeliveryOrder.

Section DeliveryDumps.
Import BotHandler.

Lemma dumps_app l1 l2 : dumps (l1 ++ l2) = dumps l1 ++ dumps l2.
Proof.
  induction l1 as [|e l1 IH]; [done|]. destruct e; cbn; by rewrite ?IH.
Qed.

(** A log that keeps the discipline of a video job dumps only databases that
    differ from [base] in the record of [vid]. *)
Lemma appends_persisted_dumps vid data base n :
  ∀ log sent,
    (length log ≤ n)%nat →
    appends_persisted vid data base sent log →
    Forall (λ d, ∃ sent', d = <[vid := mkVideoRecord data sent']> base)
      (dumps log).
Proof.
  induction n as [|n IH]; intros log sent Hlen Hlog.
  - destruct log; [done|cbn in Hlen; lia].
  - destruct log as [|e log]; [done|]. cbn [length] in Hlen.
    destruct e as [d|v u dt r|w]; cbn [appends_persisted dumps] in *.
    + done.
    + destruct r as [m| |]; [|apply (IH log sent); [lia|done]..].
      destruct (0 <=? m); [|apply (IH log sent); [lia|done]].
      destruct log as [|[d| |] log]; try done.
      destruct Hlog as [-> Hlog]. cbn [dumps]. constructor; [by eexists|].
      cbn [length] in Hlen. apply (IH log _ ltac:(lia) Hlog).
    + apply (IH log sent); [lia|done].
Qed.

(** A text delivery dumps nothing and leaves the database as it was. *)
Lemma send_loop_text user_id data video_id script tries msgs :
  let o := send_loop false user_id data video_id script tries msgs in
  dumps (send_events o) = [] ∧ send_db o = msgs.
Proof.
  revert tries. induction script as [|it script IH]; intros tries; cbn zeta.
  - done.
  - destruct it as [|r]; [done|]. cbn [send_loop].
    assert (∀ network : bool,
      let o :=
        if (SEND_FILE_TRIES_MAX <=? after_failure tries network)%nat
        then mkSendOutcome Abandoned msgs [EvSend false user_id data r]
        else
          let o' := send_loop false user_id data video_id script
                      (after_failure tries network) msgs in
          mkSendOutcome (send_exit_of o') (send_db o')
            (EvSend false user_id data r :: EvWait true :: send_events o') in
      dumps (send_events o) = [] ∧ send_db o = msgs) as Hfail.
    { intros network. cbn zeta.
      destruct (SEND_FILE_TRIES_MAX <=? after_failure tries network)%nat;
        [done|]. cbn [send_events send_db dumps]. apply IH. }
    destruct r as [m| |]; [|apply (Hfail true)|apply (Hfail false)].
    destruct (0 <=? m); [done|apply (Hfail false)].
Qed.

Lemma send_to_users_text data video_id env i users msgs :
  dumps (users_events (send_to_users false data video_id env i users msgs))
  = [].
Proof.
  revert i msgs. induction users as [|user_id users IH]; intros i msgs;
    cbn [send_to_users]; [done|].
  destruct (flag_before_user env i); [|done].
  assert (dumps (send_events
                   (send_text_or_video false user_id data video_id
                      (user_script env i) msgs)) = []
          ∧ send_db (send_text_or_video false user_id data video_id
                       (user_script env i) msgs) = msgs) as [Hd Hdb].
  { unfold send_text_or_video.
    destruct (send_loop_text user_id data video_id (user_script env i) 0 msgs)
      as [Hd Hdb]. cbn zeta in *.
    destruct (send_exit_of _); cbn [send_events send_db];
      rewrite ?dumps_app, ?Hd; done. }
  destruct (send_exit_of _); cbn [users_events];
    rewrite ?dumps_app, ?Hd, ?Hdb, ?IH; done.
Qed.

(** X18: a text job never dumps the database. Every database a video job
    dumps is the loaded database plus one record under the generated id,
    which was not a key before and whose path is the job string without its
    prefix: the records of all other videos are written back as they were
    loaded. *)
Theorem job_dumps_touch_one_record cfg env job :
  let j := process_job cfg env job in
  Forall (λ d, ∃ video_id sent,
                 startswith "video_" job = true
                 ∧ job_video_id j = Some video_id
                 ∧ loaded env !! video_id = None
                 ∧ d = <[video_id := mkVideoRecord (drop_prefix 6 job) sent]>
                         (loaded env))
    (dumps (job_events j)).
Proof.
  cbn zeta. unfold process_job.
  destruct (startswith "video_" job) eqn:Hv.
  - pose proof (generate_video_id_spec (id_picks env) None (loaded env)
                  eq_refl) as Hspec.
    destruct (generate_video_id (id_picks env) None (loaded env)) as [vid|];
      [|done].
    destruct Hspec as (_ & _ & _ & _ & _ & Hfresh & _).
    cbn [job_events job_video_id dumps].
    set (data := drop_prefix 6 job).
    set (base := <[vid := mkVideoRecord data []]> (loaded env)).
    constructor; [by exists vid, []|].
    destruct (send_to_users_persisted data vid base env 0
                (users_whitelist_video cfg) []) as (sent' & _ & Hlog).
    assert (<[vid := mkVideoRecord data []]> base = base) as Hbase
      by apply insert_insert_eq.
    rewrite Hbase in Hlog. specialize (Hlog [] I).
    rewrite app_nil_r in Hlog.
    eapply Forall_impl;
      [exact (appends_persisted_dumps vid data base _ _ [] (le_n _) Hlog)|].
    intros d [sent ->]. exists vid, sent. repeat split; try done.
    unfold base. by rewrite insert_insert_eq.
  - destruct (startswith "text_" job); [|done]. cbn [job_events].
    by rewrite send_to_users_text.
Qed.

End DeliveryDumps.

Section DeliveryFifo.
Import BotHandler.

Lemma process_job_unknown cfg env job :
  job_exit_of (process_job cfg env job) = JobUnknown →
  startswith "video_" job = false ∧ startswith "text_" job = false.
Proof.
  unfold process_job. destruct (startswith "video_" job).
  - destruct (generate_video_id _ _ _); [|done]. cbn.
    by destruct (users_finished _).
  - destruct (startswith "text_" job); [|done]. cbn.
    by destruct (users_finished _).
Qed.

(** X19: the consumer takes the queue items strictly in the order they were
    put and loses none: the queue is the jobs it began, then at most one
    item it consumed without processing (the sentinel, or a job string with
    an unknown prefix, on which it ends), then the items it left behind. It
    ends blocked on an empty queue only when every item was a job, so it
    never stays blocked once the sentinel has been put. *)
Theorem consumer_is_fifo cfg envs n queue :
  let o := sending_thread_loop cfg envs n queue in
  (∃ consumed,
     queue = (Some <$> jobs_begun o) ++ consumed ++ left_in_queue o
     ∧ match loop_exit_of o with
       | ExitSentinel => consumed = [None]
       | ExitUnknownJob =>
           ∃ bad, consumed = [Some bad]
                  ∧ startswith "video_" bad = false
                  ∧ startswith "text_" bad = false
       | BlockedOnGet => consumed = [] ∧ left_in_queue o = []
       | _ => consumed = []
       end)
  ∧ (None ∈ queue → loop_exit_of o ≠ BlockedOnGet).
Proof.
  cbn zeta.
  assert (∃ consumed,
     queue = (Some <$> jobs_begun (sending_thread_loop cfg envs n queue))
             ++ consumed
             ++ left_in_queue (sending_thread_loop cfg envs n queue)
     ∧ match loop_exit_of (sending_thread_loop cfg envs n queue) with
       | ExitSentinel => consumed = [None]
       | ExitUnknownJob =>
           ∃ bad, consumed = [Some bad]
                  ∧ startswith "video_" bad = false
                  ∧ startswith "text_" bad = false
       | BlockedOnGet =>
           consumed = []
           ∧ left_in_queue (sending_thread_loop cfg envs n queue) = []
       | _ => consumed = []
       end) as Hfifo.
  { revert n. induction queue as [|item queue IH]; intros n;
      cbn [sending_thread_loop].
    - destruct (flag_at_loop_head (envs n)); by exists [].
    - destruct (flag_at_loop_head (envs n)); [|by exists []].
      destruct item as [job|]; [|by exists [None]].
      destruct (job_exit_of (process_job cfg (envs n) job)) eqn:Hj.
      + destruct (IH (S n)) as (consumed & Hq & Hexit).
        exists consumed. cbn [jobs_begun left_in_queue loop_exit_of fmap
          list_fmap app]. split; [by rewrite Hq at 1|done].
      + apply process_job_unknown in Hj as [Hv Ht].
        exists [Some job]. split; [done|]. by exists job.
      + by exists []. }
  split; [exact Hfifo|]. intros Hnone Hblocked.
  destruct Hfifo as (consumed & Hq & Hexit). rewrite Hblocked in Hexit.
  destruct Hexit as [-> Hleft]. rewrite Hleft, !app_nil_r in Hq.
  rewrite Hq in Hnone. apply list_elem_of_fmap in Hnone as (? & ? & _). done.
Qed.

End DeliveryFifo.

(* ===================================================================== *)
(** * Further properties of the event loop *)
(* ===================================================================== *)

Section CounterFile.
Import Main.

Lemma counter_writes_app l1 l2 :
  counter_writes (l1 ++ l2) = counter_writes l1 ++ counter_writes l2.
Proof.
  induction l1 as [|e l1 IH]; [done|]. destruct e; cbn; by rewrite ?IH.
Qed.

Lemma counter_writes_recorder evs :
  counter_writes (map EvRecorder evs) = [].
Proof. induction evs as [|e evs IH]; [done|]. cbn. apply IH. Qed.

Lemma stop_pass_counter cfg i st :
  counter_writes (log (stop_pass cfg i st).2) = counter_writes (log st).
Proof.
  unfold stop_pass. destruct (_ && _); [|done].
  destruct (door_closed_timer st =? 0); [done|].
  destruct (record_extra cfg <? _); [|done].
  destruct (Recorder.recording (recorder_ st)); cbn [snd log];
    rewrite !counter_writes_app, ?counter_writes_recorder; cbn;
    by rewrite app_nil_r.
Qed.

Lemma send_files_counter P i st :
  counter_writes (log (send_files P i st)) = counter_writes (log st).
Proof.
  destruct (send_files_keeps P i st) as (_ & _ & _ & more & Hl & Hq).
  rewrite Hl, counter_writes_app.
  assert (counter_writes more = []) as ->; [|by rewrite app_nil_r].
  clear Hl. induction more as [|e more IH]; [done|].
  destruct (Hq e ltac:(by left)) as [s ->]. cbn. apply IH.
  intros e' He'. apply Hq. by right.
Qed.

(** What a pass writes to the counter file: one line for a sensor event that
    takes the branch of line 162 and whose count is there. *)
Lemma start_pass_counter P cfg i st :
  counter_writes (log (start_pass P cfg i st).2)
  = counter_writes (log st)
    ++ (if session_starts i st && negb (test_flag i)
        then match count_interrupt P (counter_file i) (today i) with
             | Some interrupts_num =>
                 [(Z.quot (clock_interrupt i) SECOND, interrupts_num)]
             | None => []
             end
        else []).
Proof.
  unfold start_pass, session_starts.
  destruct ((test_flag i || door_opened i && negb (pause_requested i))
            && negb (recording st)); [|cbn; by rewrite app_nil_r].
  cbn [andb]. unfold announce.
  destruct (test_flag i); cbn [negb];
    [|destruct (count_interrupt P (counter_file i) (today i));
      [|cbn; by rewrite app_nil_r]];
    unfold start_session;
    (destruct (negb (Recorder.recording (recorder_ st)));
     [destruct (Recorder.start_result_of _)|]); cbn [snd log];
    rewrite !counter_writes_app, ?counter_writes_recorder; cbn;
    rewrite ?counter_writes_app, ?counter_writes_recorder;
    try (destruct (_ <? SECONDS_BETWEEN_RECORDINGS)); cbn;
    by rewrite ?app_nil_r.
Qed.

(** X20: one pass of the loop rewrites the interrupt counter file exactly
    when the condition of line 162 holds for a sensor event (no test
    trigger, sensor open, not paused, the loop's own flag off) and the
    conversion of the timestamp read returns; it then writes once, the whole
    second of the clock and the new count. A test trigger, a pass in which
    the condition fails and a pass in which the conversion raises write
    nothing. The write does not depend on a call of [recorder_.start]: in a
    pass that finds the recorder still reporting recording the file is
    rewritten, no start is called and the loop's flag stays off, so the next
    pass with the sensor open writes again. *)
Theorem counter_written_per_sensor_event P cfg i st :
  counter_writes (log (tick P cfg i st).2)
  = counter_writes (log st)
    ++ (if session_starts i (pause_edge i st) && negb (test_flag i)
        then match count_interrupt P (counter_file i) (today i) with
             | Some interrupts_num =>
                 [(Z.quot (clock_interrupt i) SECOND, interrupts_num)]
             | None => []
             end
        else [])
  ∧ ∀ interrupts_num,
      session_starts i (pause_edge i st) = true →
      test_flag i = false →
      count_interrupt P (counter_file i) (today i) = Some interrupts_num →
      Recorder.recording (recorder_ st) = true →
      let r := tick P cfg i st in
      r.1 = true
      ∧ recording r.2 = false
      ∧ recorder_ r.2 = recorder_ st
      ∧ ∃ more,
          log r.2 = log st ++ more
          ∧ (EvStartCalled ∉ more)
          ∧ counter_writes more
            = [(Z.quot (clock_interrupt i) SECOND, interrupts_num)].
Proof.
  split.
  - unfold tick.
    pose proof (start_pass_counter P cfg i (pause_edge i st)) as H1.
    destruct (pause_edge_keeps i st) as (_ & _ & _ & Hl0). rewrite Hl0 in H1.
    destruct (start_pass P cfg i (pause_edge i st)) as [ok1 st1].
    cbn [snd] in H1. destruct ok1; [|done].
    pose proof (stop_pass_counter cfg i st1) as H2.
    destruct (stop_pass cfg i st1) as [ok2 st2]. cbn [snd] in H2.
    destruct ok2; cbn [snd]; [|by rewrite H2].
    rewrite send_files_counter.
    destruct (cancel_pass_keeps i st2) as (_ & _ & ->). by rewrite H2.
  - intros interrupts_num Hcond Htest Hcount Hbusy. cbn zeta.
    destruct (pause_edge_keeps i st) as (Hr0 & _ & Hre0 & Hl0).
    set (st0 := pause_edge i st) in *.
    assert (recording st0 = false) as Hoff.
    { unfold session_starts in Hcond.
      apply andb_true_iff in Hcond as [_ Hcond].
      by destruct (recording st0). }
    unfold tick. fold st0. unfold start_pass.
    unfold session_starts in Hcond. rewrite Hcond.
    unfold announce. rewrite Htest, Hcount.
    unfold start_session. rewrite Hre0, Hbusy. cbn [negb].
    unfold stop_pass. cbn [recording]. rewrite Hoff. cbn [andb].
    unfold cancel_pass. cbn [recording]. rewrite ?Hoff, andb_false_r.
    cbn [andb]. unfold send_files. cbn [output_dir fst snd recording
      recorder_ log].
    split; [done|]. split; [done|]. split; [done|].
    rewrite Hl0. eexists. split; [done|]. split.
    + intros Hin. repeat (apply elem_of_cons in Hin as [Hin|Hin]; [done|]).
      by apply elem_of_nil in Hin.
    + done.
Qed.

Lemma counter_written_per_sensor_event_witness :
  let i := Samples.pass 1700000000 true false [] in
  let st := Samples.stale in
  counter_writes (log (tick Samples.plain Samples.settings i st).2)
  = [(1700000000, 5)]
  ∧ let r := tick Samples.plain Samples.settings i st in
    r.1 = true
    ∧ recording r.2 = false
    ∧ recorder_ r.2 = recorder_ st
    ∧ ∃ more,
        log r.2 = log st ++ more
        ∧ (EvStartCalled ∉ more)
        ∧ counter_writes more = [(1700000000, 5)].
Proof.
  pose proof (counter_written_per_sensor_event Samples.plain Samples.settings
                (Samples.pass 1700000000 true false []) Samples.stale)
    as [Hwrites Hbusy].
  split; [exact Hwrites|].
  apply (Hbusy 5); reflexivity.
Defined.

(** X21: when the counter file is missing or unreadable or holds no readable
    count, the count of a sensor event is 1 if the conversion of the
    timestamp left by the read returns, and there is no count if it raises;
    with a stored count the count is that count plus 1 or 1 if the
    conversion returns, and there is none if it raises. *)
Theorem count_restarts_without_a_file P today :
  count_interrupt P NoCounter today
  = match fromtimestamp P 0 with Some _ => Some 1 | None => None end
  ∧ (∀ ts, count_interrupt P (TimestampOnly ts) today
           = match fromtimestamp P ts with Some _ => Some 1 | None => None end)
  ∧ (∀ ts n,
       match fromtimestamp P ts with
       | Some _ => count_interrupt P (Stored ts n) today = Some (n + 1)
                   ∨ count_interrupt P (Stored ts n) today = Some 1
       | None => count_interrupt P (Stored ts n) today = None
       end).
Proof.
  unfold count_interrupt. cbn [read_counter].
  split; [destruct (fromtimestamp P 0); [by destruct (_ || _)|done]|].
  split; intros ts;
    [destruct (fromtimestamp P ts); [by destruct (_ || _)|done]|].
  intros n. destruct (fromtimestamp P ts); [|done].
  destruct (_ || _); auto.
Qed.

(** X27: on a sensor event that takes the branch of line 162 with a stored
    timestamp that the conversion accepts, the pass writes to the counter
    file, before anything else it does, the whole second of the clock and a
    count that is the stored count plus 1 when the stored timestamp, read as
    a local datetime, lies in [midnight, midnight + 1 day - 1 second] of the
    day of the event, and 1 otherwise. *)
Theorem counter_rule_for_convertible_timestamp P cfg i st ts n stored :
  recording st = false →
  test_flag i = false → door_opened i = true → pause_requested i = false →
  counter_file i = Stored ts n →
  fromtimestamp P ts = Some stored →
  let midnight := today_start (today i) in
  let count :=
    if decide (midnight ≤ stored ≤ midnight + DAY - SECOND)
    then n + 1 else 1 in
  (midnight `mod` DAY = 0 ∧ midnight ≤ today i < midnight + DAY)
  ∧ ∃ rest,
      log (tick P cfg i st).2
      = log st
        ++ EvCounterWrite (Z.quot (clock_interrupt i) SECOND) count :: rest.
Proof.
  intros Hrec Htest Hdoor Hpause Hfile Hconv. cbn zeta.
  split; [apply today_start_is_midnight|].
  destruct (pause_edge_keeps i st) as (Hr0 & _ & _ & Hl0).
  unfold tick. set (st0 := pause_edge i st) in *.
  assert (∃ rest,
    log (start_pass P cfg i st0).2
    = log st
      ++ EvCounterWrite (Z.quot (clock_interrupt i) SECOND)
           (if decide (today_start (today i) ≤ stored
                       ≤ today_start (today i) + DAY - SECOND)
            then n + 1 else 1) :: rest) as [r1 H1].
  { unfold start_pass, announce.
    rewrite Htest, Hdoor, Hpause, Hr0, Hrec, Hfile. cbn [orb andb negb].
    rewrite (count_interrupt_stored P ts n (today i) stored Hconv).
    match goal with
    | |- context [start_session P cfg i st0 ?evs] =>
        destruct (start_session_extends P cfg i st0 evs) as [rest Hrest]
    end.
    rewrite Hrest, Hl0. cbn [app]. by eexists. }
  destruct (start_pass P cfg i st0) as [ok1 st1]. cbn [snd] in H1.
  destruct ok1; [|by exists r1].
  destruct (stop_pass_extends cfg i st1) as [r2 H2].
  destruct (stop_pass cfg i st1) as [ok2 st2]. cbn [snd] in H2.
  destruct ok2; cbn [snd].
  - destruct (send_files_keeps P i (cancel_pass i st2))
      as (_ & _ & _ & r3 & H3 & _).
    destruct (cancel_pass_keeps i st2) as (_ & _ & Hc).
    rewrite H3, Hc, H2, H1. rewrite <- !app_assoc. cbn [app]. by eexists.
  - rewrite H2, H1. rewrite <- !app_assoc. cbn [app]. by eexists.
Qed.

Lemma counter_rule_for_convertible_timestamp_witness :
  let i := Samples.pass 1700000000 true false [] in
  let midnight := today_start (today i) in
  let count :=
    if decide (midnight ≤ (19000 * 86400 + 3600) * SECOND
               ≤ midnight + DAY - SECOND)
    then 4 + 1 else 1 in
  (midnight `mod` DAY = 0 ∧ midnight ≤ today i < midnight + DAY)
  ∧ ∃ rest,
      log (tick Samples.plain Samples.settings i Samples.after_session).2
      = log Samples.after_session
        ++ EvCounterWrite (Z.quot (clock_interrupt i) SECOND) count :: rest.
Proof.
  apply (counter_rule_for_convertible_timestamp Samples.plain Samples.settings
           (Samples.pass 1700000000 true false []) Samples.after_session
           (19000 * 86400 + 3600) 4 ((19000 * 86400 + 3600) * SECOND));
    reflexivity.
Defined.

End CounterFile.

Section Sessions.
Import Main.

(** [start] on a recorder that is not recording leaves the recording flag
    off unless it returns a directory. *)
Lemma failed_start_leaves_flag_off dir script r :
  Recorder.recording r = false →
  Recorder.start_result_of (Recorder.start dir script r) = Recorder.Failed →
  Recorder.recording (Recorder.start_recorder (Recorder.start dir script r))
  = false.
Proof.
  revert r. induction script as [|l script IH]; intros r Hrec; [done|].
  cbn [Recorder.start]. destruct l as [| |pid|pid reads env]; try done.
  destruct (Recorder.watchdog reads); [done|].
  set (r1 := {| Recorder.recording := Recorder.recording r;
                Recorder.attempts := S (Recorder.attempts r);
                Recorder.process := Some pid;
                Recorder.capture_enabled := true |}).
  pose proof (stop_keeps_flag_off env true r1 Hrec) as Hoff.
  destruct (Recorder.stop_status_of (Recorder.stop env true r1)); [|done].
  destruct (Recorder.START_ATTEMPTS <=? _)%nat; [done|].
  cbn [Recorder.prepend Recorder.start_result_of Recorder.start_recorder].
  apply IH. exact Hoff.
Qed.

End Sessions.

Section SessionPasses.
Import Main.

Lemma queue_puts_app l1 l2 :
  queue_puts (l1 ++ l2) = queue_puts l1 ++ queue_puts l2.
Proof.
  induction l1 as [|e l1 IH]; [done|]. destruct e; cbn; by rewrite ?IH.
Qed.

(** After a pass that started a session without an output directory, the
    stop, cancel and file passes add nothing to the log and keep the
    session. *)
Lemma rest_of_pass_without_directory P cfg i st :
  recording st = true → door_closed_timer st = 0 → output_dir st = None →
  let st2 := (stop_pass cfg i st).2 in
  (stop_pass cfg i st).1 = true
  ∧ send_files P i (cancel_pass i st2)
    = cancel_pass i st2
  ∧ recording (cancel_pass i st2) = true
  ∧ output_dir (cancel_pass i st2) = None
  ∧ recorder_ (cancel_pass i st2) = recorder_ st
  ∧ files_sent (cancel_pass i st2) = files_sent st
  ∧ log (cancel_pass i st2) = log st.
Proof.
  intros Hrec Htimer Hdir. cbn zeta. unfold stop_pass.
  rewrite Hrec, Htimer. cbn [andb Z.eqb].
  destruct (negb (door_opened i) || pause_requested i); cbn [fst snd];
    unfold cancel_pass, send_files;
    cbn [recording door_closed_timer]; rewrite ?Hrec, ?Htimer;
    destruct (door_opened i); cbn [andb negb Z.eqb];
    try (destruct (negb (clock_timer i =? 0)));
    cbn [output_dir recording recorder_ files_sent log]; rewrite ?Hdir; done.
Qed.

(** X22: when a pass takes the branch of line 162, reaches the call of
    [recorder_.start] (the event is a test trigger, or the count of the
    sensor event is there) and the call returns [None], the pass still turns
    the light on and marks the session as recording, with no output
    directory, an empty list of sent files and a recorder that does not
    report recording; the last string it puts on the delivery queue is the
    text job with the start error. *)
Theorem failed_start_is_reported P cfg i st :
  session_starts i st = true →
  (test_flag i = false →
   is_Some (count_interrupt P (counter_file i) (today i))) →
  Recorder.recording (recorder_ st) = false →
  Recorder.start_result_of
    (Recorder.start
       (path_join P (output_directory cfg)
          (strftime P (output_subdir_format cfg) (event_time i)))
       (start_script i) (recorder_ st)) = Recorder.Failed →
  let r := tick P cfg i st in
  r.1 = true
  ∧ recording r.2 = true
  ∧ output_dir r.2 = None
  ∧ files_sent r.2 = []
  ∧ Recorder.recording (recorder_ r.2) = false
  ∧ EvLight true ∈ log r.2
  ∧ last (queue_puts (log r.2))
    = Some ("text_" +:+ error_starting_recording cfg).
Proof.
  intros Hstart Hcount Hrec Hfail. cbn zeta. unfold tick.
  destruct (pause_edge_keeps i st) as (Hr0 & _ & Hre0 & Hl0).
  set (st0 := pause_edge i st) in *.
  unfold session_starts in Hstart. rewrite <- Hr0 in Hstart.
  assert (∃ notified, announce P cfg i st0 = Some notified)
    as [notified Hnotified].
  { unfold announce. destruct (test_flag i); [by eexists|].
    destruct (Hcount eq_refl) as [interrupts_num ->]. by eexists. }
  unfold start_pass. rewrite Hstart, Hnotified.
  unfold start_session. rewrite Hre0, Hrec. cbn [negb]. rewrite Hfail.
  set (evs := (notified ++ [EvLight true])
              ++ _ ++ [EvStartCalled] ++ _).
  match goal with
  | |- context [stop_pass cfg i ?s] => set (st1 := s)
  end.
  destruct (rest_of_pass_without_directory P cfg i st1 eq_refl eq_refl eq_refl)
    as (Hok & Hsend & H1 & H2 & H3 & H4 & H5). cbn zeta in *.
  destruct (stop_pass cfg i st1) as [ok2 st2]. cbn [fst snd] in *.
  subst ok2. cbn [fst snd]. rewrite Hsend, H1, H2, H3, H4, H5.
  unfold st1. cbn [recorder_ files_sent log].
  split; [done|]. split; [done|]. split; [done|]. split; [done|].
  split; [by apply failed_start_leaves_flag_off|]. split.
  - apply elem_of_app. right. apply elem_of_app. left. unfold evs.
    apply elem_of_app. left. apply elem_of_app. right. by left.
  - rewrite !queue_puts_app. cbn [queue_puts].
    rewrite !app_assoc. apply last_snoc.
Qed.

Lemma failed_start_is_reported_witness :
  let i := {| pause_requested := false; test_flag := false;
              door_opened := true; resume_time := Samples.noon;
              event_time := Samples.noon; today := Samples.noon;
              counter_file := NoCounter;
              clock_interrupt := 1700000000 * SECOND;
              clock_before_start := 1700000000 * SECOND;
              clock_timer := 1700000000 * SECOND;
              clock_stopped := 1700000000 * SECOND;
              start_script := [Recorder.ExitedAtOnce 41];
              stop_env := Samples.obedient; listing := [] |} in
  let r := tick Samples.plain Samples.settings i Samples.after_session in
  r.1 = true
  ∧ recording r.2 = true
  ∧ output_dir r.2 = None
  ∧ files_sent r.2 = []
  ∧ Recorder.recording (recorder_ r.2) = false
  ∧ EvLight true ∈ log r.2
  ∧ last (queue_puts (log r.2))
    = Some ("text_" +:+ error_starting_recording Samples.settings).
Proof.
  apply (failed_start_is_reported Samples.plain Samples.settings
           {| pause_requested := false; test_flag := false;
              door_opened := true; resume_time := Samples.noon;
              event_time := Samples.noon; today := Samples.noon;
              counter_file := NoCounter;
              clock_interrupt := 1700000000 * SECOND;
              clock_before_start := 1700000000 * SECOND;
              clock_timer := 1700000000 * SECOND;
              clock_stopped := 1700000000 * SECOND;
              start_script := [Recorder.ExitedAtOnce 41];
              stop_env := Samples.obedient; listing := [] |}
           Samples.after_session); try reflexivity.
  intros _. by eexists.
Defined.



(** X24: within the loop no file name enters the list of sent files twice:
    a file pass either leaves the list alone or appends one regular file of
    the listing that was not in it, and any sequence of passes keeps the
    list free of duplicates. *)
Theorem no_file_is_taken_twice P cfg inputs st :
  NoDup (files_sent st) →
  NoDup (files_sent (run P cfg inputs st).2)
  ∧ ∀ i, files_sent (send_files P i st) = files_sent st
         ∨ ∃ f, files_sent (send_files P i st) = files_sent st ++ [f]
                ∧ (f ∉ files_sent st)
                ∧ f ∈ file_names (listing i).
Proof.
  assert (∀ i s, files_sent (send_files P i s) = files_sent s
                 ∨ ∃ f, files_sent (send_files P i s) = files_sent s ++ [f]
                        ∧ (f ∉ files_sent s)
                        ∧ f ∈ file_names (listing i)) as Hpass.
  { intros i s. unfold send_files. destruct (output_dir s) as [dir|]; [|by left].
    destruct (str_truthy dir); [|by left].
    destruct (unsent (listing i) (files_sent s)) as [|file files] eqn:Hu;
      [by left|].
    destruct (_ || _); [|by left]. right. exists file. split; [done|].
    assert (file ∈ unsent (listing i) (files_sent s)) as Hin
      by (rewrite Hu; by left).
    rewrite unsent_perm in Hin. by apply list_elem_of_filter in Hin. }
  intros Hnd. split; [|intros i; apply Hpass].
  revert st Hnd. induction inputs as [|i inputs IH]; intros st Hnd; [done|].
  cbn [run].
  assert (NoDup (files_sent (tick P cfg i st).2)) as Htick.
  { unfold tick.
    assert (files_sent (pause_edge i st) = files_sent st) as H0
      by (unfold pause_edge; by destruct (negb _)).
    assert (NoDup (files_sent (start_pass P cfg i (pause_edge i st)).2)) as H1.
    { unfold start_pass. destruct (_ && _); [|cbn; by rewrite H0].
      destruct (announce P cfg i (pause_edge i st)) as [notified|];
        [|cbn; by rewrite H0].
      unfold start_session.
      destruct (negb _); [destruct (Recorder.start_result_of _)|];
        cbn [snd files_sent]; constructor. }
    destruct (start_pass P cfg i (pause_edge i st)) as [ok1 st1].
    cbn [snd] in H1. destruct ok1; [|done].
    assert (files_sent (stop_pass cfg i st1).2 = files_sent st1) as H2.
    { unfold stop_pass. destruct (_ && _); [|done].
      destruct (_ =? 0); [done|]. destruct (_ <? _); [|done].
      by destruct (Recorder.recording _). }
    destruct (stop_pass cfg i st1) as [ok2 st2]. cbn [snd] in H2.
    destruct ok2; cbn [snd]; [|by rewrite H2].
    assert (files_sent (cancel_pass i st2) = files_sent st2) as H3
      by (unfold cancel_pass; by destruct (_ && _)).
    destruct (Hpass i (cancel_pass i st2)) as [->|(f & -> & Hf & _)];
      rewrite H3, H2 in *; [done|].
    apply NoDup_app. split; [done|]. split.
    - intros x Hx ->%list_elem_of_singleton. done.
    - apply NoDup_singleton. }
  destruct (tick P cfg i st) as [ok st']. cbn [snd] in Htick.
  destruct ok; [by apply IH|done].
Qed.

Lemma no_file_is_taken_twice_witness :
  NoDup (files_sent
           (run Samples.plain Samples.settings
              [Samples.pass 1700000000 true false Samples.finished;
               Samples.pass 1700000001 true false Samples.finished]
              Samples.in_session).2)
  ∧ ∀ i, files_sent (send_files Samples.plain i Samples.in_session)
         = files_sent Samples.in_session
         ∨ ∃ f, files_sent (send_files Samples.plain i Samples.in_session)
                = files_sent Samples.in_session ++ [f]
                ∧ (f ∉ files_sent Samples.in_session)
                ∧ f ∈ file_names (listing i).
Proof.
  apply (no_file_is_taken_twice Samples.plain Samples.settings
           [Samples.pass 1700000000 true false Samples.finished;
            Samples.pass 1700000001 true false Samples.finished]
           Samples.in_session).
  apply (bool_decide_unpack _). vm_compute. exact I.
Defined.

End SessionPasses.

Section GracePeriod.
Import Main.

(** A pass with the sensor closed before the grace duration is over. *)
Lemma waiting_pass P cfg i st :
  recording st = true → door_opened i = false →
  door_closed_timer st ≠ 0 →
  clock_timer i - door_closed_timer st ≤ record_extra cfg →
  let r := tick P cfg i st in
  r.1 = true
  ∧ recording r.2 = true
  ∧ door_closed_timer r.2 = door_closed_timer st
  ∧ recorder_ r.2 = recorder_ st
  ∧ ∃ more, log r.2 = log st ++ more ∧ ∀ e, e ∈ more → ∃ s, e = EvQueuePut s.
Proof.
  intros Hrec Hdoor Htimer Hgrace. cbn zeta. unfold tick.
  destruct (pause_edge_keeps i st) as (Hr0 & Ht0 & Hre0 & Hl0).
  set (st0 := pause_edge i st) in *.
  unfold start_pass. rewrite Hr0, Hrec, andb_false_r.
  unfold stop_pass. rewrite Hr0, Hrec, Hdoor, Ht0. cbn [negb orb andb].
  destruct (Z.eqb_spec (door_closed_timer st) 0); [done|].
  destruct (Z.ltb_spec (record_extra cfg)
              (clock_timer i - door_closed_timer st)); [lia|].
  unfold cancel_pass. rewrite Hdoor. cbn [andb fst snd].
  destruct (send_files_keeps P i st0) as (H1 & H2 & H3 & more & H4 & H5).
  rewrite H1, H2, H3, H4, Hr0, Ht0, Hre0, Hl0. repeat split; try done.
  by exists more.
Qed.

Lemma waiting_passes P cfg inputs st :
  recording st = true → door_closed_timer st ≠ 0 →
  Forall (λ i, door_opened i = false
               ∧ clock_timer i - door_closed_timer st ≤ record_extra cfg)
    inputs →
  let r := run P cfg inputs st in
  r.1 = true
  ∧ recording r.2 = true
  ∧ door_closed_timer r.2 = door_closed_timer st
  ∧ recorder_ r.2 = recorder_ st
  ∧ ∃ more, log r.2 = log st ++ more ∧ ∀ e, e ∈ more → ∃ s, e = EvQueuePut s.
Proof.
  intros Hrec Htimer Hall. revert st Hrec Htimer Hall.
  induction inputs as [|i inputs IH]; intros st Hrec Htimer Hall; cbn zeta.
  - cbn. repeat split; try done. exists []. rewrite app_nil_r.
    split; [done|]. by intros e ?%elem_of_nil.
  - apply Forall_cons in Hall as [[Hdoor Hgrace] Hall]. cbn [run].
    destruct (waiting_pass P cfg i st Hrec Hdoor Htimer Hgrace)
      as (T1 & T2 & T3 & T4 & more & T5 & T6). cbn zeta in *.
    destruct (tick P cfg i st) as [ok st']. cbn [fst snd] in *. subst ok.
    destruct (IH st') as (R1 & R2 & R3 & R4 & more' & R5 & R6);
      [done|by rewrite T3|by rewrite T3|]. cbn zeta in *.
    rewrite R3, R4, R5, T3, T4, T5. repeat split; try done.
    exists (more ++ more'). rewrite app_assoc. split; [done|].
    intros e [He|He]%elem_of_app; auto.
Qed.

(** X25: with a session recording, the recorder reporting recording and the
    sensor closed from some pass on, the first such pass only starts the
    grace timer and the passes that follow within the grace duration change
    nothing but the delivery queue; the first pass that finds more than the
    grace duration elapsed turns the light off, calls [recorder_.stop()] and
    clears the session flag and the timer. *)
Theorem closed_sensor_stops_after_grace P cfg first waiting last st :
  recording st = true → door_closed_timer st = 0 →
  Recorder.recording (recorder_ st) = true →
  door_opened first = false → clock_timer first ≠ 0 →
  Forall (λ i, door_opened i = false
               ∧ clock_timer i - clock_timer first ≤ record_extra cfg)
    waiting →
  door_opened last = false →
  record_extra cfg < clock_timer last - clock_timer first →
  Recorder.stop_returns (stop_env last) = true →
  let before := run P cfg (first :: waiting) st in
  let after := tick P cfg last before.2 in
  before.1 = true
  ∧ recording before.2 = true
  ∧ (∀ e, e ∈ log before.2 → e ∈ log st ∨ ∃ s, e = EvQueuePut s)
  ∧ after.1 = true
  ∧ recording after.2 = false
  ∧ door_closed_timer after.2 = 0
  ∧ ∃ more,
      log after.2 = log before.2 ++ EvLight false :: EvStopCalled :: more
      ∧ EvLight false ∉ more.
Proof.
  intros Hrec Htimer Hrecorder Hfirst Hclock Hwait Hlast Hgrace Hret.
  cbn zeta.
  (* the first pass *)
  assert (∃ st1, tick P cfg first st = (true, st1)
                 ∧ recording st1 = true
                 ∧ door_closed_timer st1 = clock_timer first
                 ∧ recorder_ st1 = recorder_ st
                 ∧ ∃ more, log st1 = log st ++ more
                           ∧ ∀ e, e ∈ more → ∃ s, e = EvQueuePut s)
    as (st1 & Htick & F1 & F2 & F3 & more1 & F4 & F5).
  { unfold tick.
    destruct (pause_edge_keeps first st) as (Hr0 & Ht0 & Hre0 & Hl0).
    set (st0 := pause_edge first st) in *.
    unfold start_pass. rewrite Hr0, Hrec, andb_false_r.
    unfold stop_pass. rewrite Hr0, Hrec, Hfirst, Ht0, Htimer.
    cbn [negb orb andb Z.eqb].
    unfold cancel_pass. rewrite Hfirst. cbn [andb].
    match goal with
    | |- context [send_files P first ?s] => set (s1 := s)
    end.
    destruct (send_files_keeps P first s1) as (H1 & H2 & H3 & more & H4 & H5).
    eexists. split; [reflexivity|]. rewrite H1, H2, H3, H4.
    unfold s1. cbn [recording door_closed_timer recorder_ log].
    rewrite ?Hr0, ?Hre0, ?Hl0. repeat split; try done. by exists more. }
  cbn [run]. rewrite Htick.
  destruct (waiting_passes P cfg waiting st1) as
    (W1 & W2 & W3 & W4 & more2 & W5 & W6);
    [done|by rewrite F2|by rewrite F2|]. cbn zeta in *.
  destruct (run P cfg waiting st1) as [okw st2]. cbn [fst snd] in *.
  subst okw. split; [done|]. split; [done|]. split.
  { intros e He. rewrite W5, F4 in He.
    apply elem_of_app in He as [[He|He]%elem_of_app|He]; auto. }
  (* the pass after the grace duration *)
  unfold tick.
  destruct (pause_edge_keeps last st2) as (Hr0 & Ht0 & Hre0 & Hl0).
  set (st0 := pause_edge last st2) in *.
  unfold start_pass. rewrite Hr0, W2, andb_false_r.
  unfold stop_pass. rewrite Hr0, W2, Hlast, Ht0, W3, F2, Hre0, W4, F3,
    Hrecorder. cbn [negb orb andb].
  destruct (Z.eqb_spec (clock_timer first) 0); [done|].
  destruct (Z.ltb_spec (record_extra cfg)
              (clock_timer last - clock_timer first)); [|lia].
  rewrite (stop_status_returns (stop_env last) false (recorder_ st) Hret).
  unfold cancel_pass. rewrite Hlast. cbn [andb].
  match goal with
  | |- context [send_files P last ?s] => set (s3 := s)
  end.
  destruct (send_files_keeps P last s3) as (H1 & H2 & H3 & more & H4 & H5).
  cbn [fst snd]. rewrite H1, H2, H4. unfold s3.
  cbn [recording door_closed_timer log]. rewrite Hl0.
  split; [done|]. split; [done|]. split; [done|].
  eexists. rewrite <- !app_assoc. cbn [app].
  split; [reflexivity|].
  intros [Hin|Hin]%elem_of_app.
  - apply list_elem_of_fmap in Hin as (? & ? & _). done.
  - destruct (H5 _ Hin) as [s Hs]. done.
Qed.

Lemma closed_sensor_stops_after_grace_witness :
  let first := Samples.pass 1700000005 false false Samples.growing in
  let waiting := [Samples.pass 1700000010 false false Samples.growing;
                  Samples.pass 1700000015 false false Samples.growing] in
  let last := Samples.pass 1700000016 false false Samples.growing in
  let before := run Samples.plain Samples.settings (first :: waiting)
                  Samples.in_session in
  let after := tick Samples.plain Samples.settings last before.2 in
  before.1 = true
  ∧ recording before.2 = true
  ∧ (∀ e, e ∈ log before.2 →
          e ∈ log Samples.in_session ∨ ∃ s, e = EvQueuePut s)
  ∧ after.1 = true
  ∧ recording after.2 = false
  ∧ door_closed_timer after.2 = 0
  ∧ ∃ more,
      log after.2 = log before.2 ++ EvLight false :: EvStopCalled :: more
      ∧ EvLight false ∉ more.
Proof.
  apply (closed_sensor_stops_after_grace Samples.plain Samples.settings
           (Samples.pass 1700000005 false false Samples.growing)
           [Samples.pass 1700000010 false false Samples.growing;
            Samples.pass 1700000015 false false Samples.growing]
           (Samples.pass 1700000016 false false Samples.growing)
           Samples.in_session).
  - reflexivity.
  - reflexivity.
  - reflexivity.
  - reflexivity.
  - vm_compute. discriminate.
  - repeat (constructor; [split; [reflexivity|vm_compute; discriminate]|]).
    constructor.
  - reflexivity.
  - vm_compute. reflexivity.
  - reflexivity.
Defined.

End GracePeriod.

Section GraceCancelled.
Import Main.

Lemma reopen_cancels_timer_witness :
  let st := {| recording := true; recording_stopped_time := 0;
               door_closed_timer := 1700000005 * SECOND;
               pause_requested_prev := false; files_sent := [];
               output_dir := Some "rec/1"; datetime_started := Samples.noon;
               recorder_ := Samples.busy; log := [] |} in
  let r := tick Samples.plain Samples.settings
             (Samples.pass 1700000008 true false Samples.growing) st in
  r.1 = true
  ∧ recording r.2 = true
  ∧ door_closed_timer r.2 = 0
  ∧ recorder_ r.2 = recorder_ st
  ∧ ∀ e, e ∈ log r.2 → e ∈ log st ∨ ∃ s, e = EvQueuePut s.
Proof.
  apply (reopen_cancels_timer Samples.plain Samples.settings
           (Samples.pass 1700000008 true false Samples.growing)
           {| recording := true; recording_stopped_time := 0;
              door_closed_timer := 1700000005 * SECOND;
              pause_requested_prev := false; files_sent := [];
              output_dir := Some "rec/1"; datetime_started := Samples.noon;
              recorder_ := Samples.busy; log := [] |}); reflexivity.
Defined.

End GraceCancelled.
